(** * ImageGrid.vue: the result-grid controller

    A shallow embedding of the [<script setup>] block of the [ImageGrid]
    component, together with the [:disabled], [v-if] and [@dblclick]
    bindings of its template.

    The sources hold two revisions of the component.  The earlier one is
    [frontend/src/components/ImageGrid.vue]: it has no removal and zips the
    fetched blobs as they are.  The later one follows the Vite configuration
    in [frontend/vite.config.js] (from [<script setup>] on): it adds
    [removeImageAt], the cursor [nextFetchPage] and the canvas transcoder.
    The specification describes the later one, and that is the one embedded
    here; [fetchImages], the watcher, [nextPage] and [prevPage] are the same
    in both but for the host in the URL.

    The component is a single-threaded event-loop program: every [async]
    function runs until its next [await], is parked, and is resumed by a
    later event.  The embedding makes this explicit: a [State] holds the
    refs, the props, the module-level [nextFetchPage] and the table of parked
    calls; an [Event] is a user action, a change of props, a timer expiry or
    the settlement of a [fetch]; [step] runs one event to the next
    suspension point. *)

From Stdlib Require Import ZArith QArith Qround String Ascii List Lia.
From Stdlib Require Import DecimalString DecimalZ DecimalPos.
From stdpp Require Import base gmap list.

Local Open Scope Z_scope.

(* ===================================================================== *)
(** ** JavaScript values used by the component *)
(* ===================================================================== *)

(** A JavaScript string is a sequence of UTF-16 code units. *)
Abbreviation jsstring := (list N).

(** An ASCII literal of the source as code units. *)
Definition lit (s : string) : jsstring := N_of_ascii <$> list_ascii_of_string s.

(** [`${n}`] for an integral Number [n]: its decimal numeral. *)
Definition dec (z : Z) : jsstring := lit (NilZero.string_of_int (Z.to_int z)).

Arguments lit : simpl never.
Arguments dec : simpl never.

(** Truthiness of a string: every string but the empty one. *)
Definition truthy (s : jsstring) : bool :=
  match s with [] => false | _ :: _ => true end.

(** [a || b] on strings. *)
Definition or_else (a b : jsstring) : jsstring := if truthy a then a else b.

(** [Array.prototype.splice(start, deleteCount, ...ins)], the array after the
    call.  [start] is clamped into [0, length] (counted from the end when
    negative) and at most [length - start] elements are deleted. *)
Definition splice {A} (start deleteCount : Z) (ins l : list A) : list A :=
  let len := Z.of_nat (length l) in
  let actualStart :=
    if start <? 0 then Z.max (len + start) 0 else Z.min start len in
  let actualDeleteCount := Z.min (Z.max deleteCount 0) (len - actualStart) in
  take (Z.to_nat actualStart) l ++ ins
    ++ drop (Z.to_nat (actualStart + actualDeleteCount)) l.

(** The outcome of a [try] block: it ran through, or it threw an [Error]
    with the given [message]. *)
Inductive Completion (A : Type) : Type :=
| Normal (a : A)
| Throw (message : jsstring).
Arguments Normal {A} a.
Arguments Throw {A} message.

(* ===================================================================== *)
(** ** Data model *)
(* ===================================================================== *)

(** One search hit, as the backend returns it in [results]. *)
Record ResultItem := mkItem {
  id : jsstring;
  download_url : jsstring;
  alt_description : option jsstring
}.

(** An element of [images.value]: a hit, or the [{ __placeholder: true }]
    object that [removeImageAt] puts in while a replacement is fetched. *)
Inductive Slot :=
| Item (it : ResultItem)
| Placeholder.

#[global] Instance ResultItem_eq_dec : EqDecision ResultItem.
Proof. solve_decision. Defined.
#[global] Instance Slot_eq_dec : EqDecision Slot.
Proof. solve_decision. Defined.


(** The parsed JSON body of [/search]: every field may be missing. *)
Record SearchData := mkData {
  d_results : option (list ResultItem);
  d_total : option Z;
  d_error : option jsstring
}.

(** [GET /search?query=<encodeURIComponent q>&page=<p>&per_page=<n>], kept as
    its three parameters ([encodeURIComponent] is injective on the
    well-formed strings a text input produces). *)
Record Request := mkReq {
  req_query : jsstring;
  req_page : Z;
  req_per_page : Z
}.

#[global] Instance Request_eq_dec : EqDecision Request.
Proof. solve_decision. Defined.

(** What [await fetch(url)] followed by [await res.json()] delivers.  Nothing
    of the component's state is read or written between the two awaits, so
    they are one settlement. *)
Inductive FetchOutcome :=
| NetworkError (message : jsstring)
    (* fetch() rejected *)
| Response (status : Z) (json : Completion SearchData).
    (* a response arrived; [json] is what res.json() would settle to *)

(** [res.ok] *)
Definition ok (status : Z) : bool := (200 <=? status) && (status <=? 299).

(** A parked [async] call, with the locals that are live across its [await]. *)
Inductive Task :=
| PageFetch (req : Request)
    (* fetchImages, awaiting the page *)
| RemovalDelay (index : Z)
    (* removeImageAt, awaiting the 260 ms timer *)
| ReplacementFetch (index fetchPage : Z) (req : Request).
    (* removeImageAt, awaiting the replacement item *)

Record State := mkState {
  searchQuery : jsstring;          (* props.searchQuery *)
  page : Z;                        (* props.page *)
  images : list Slot;              (* images.value *)
  loading : bool;                  (* loading.value *)
  error : option jsstring;         (* error.value, None for null *)
  total : Z;                       (* total.value *)
  nextFetchPage : Z;               (* let nextFetchPage *)
  removingIndexes : gset Z;        (* removingIndexes.value *)
  tasks : gmap nat Task;           (* parked async calls *)
  next_task : nat;                 (* next fresh task id *)
  requests : list Request          (* every fetch issued, oldest first *)
}.

Definition perPage : Z := 50.

(** ['Ошибка загрузки'] *)
Definition msg_load_failed : jsstring :=
  [0x41E; 0x448; 0x438; 0x431; 0x43A; 0x430; 0x20;
   0x437; 0x430; 0x433; 0x440; 0x443; 0x437; 0x43A; 0x438]%N.

(** *** Field updates *)

Definition set_props (q : jsstring) (p : Z) (s : State) : State :=
  mkState q p (images s) (loading s) (error s) (total s) (nextFetchPage s)
          (removingIndexes s) (tasks s) (next_task s) (requests s).
Definition set_images (v : list Slot) (s : State) : State :=
  mkState (searchQuery s) (page s) v (loading s) (error s) (total s)
          (nextFetchPage s) (removingIndexes s) (tasks s) (next_task s)
          (requests s).
Definition set_loading (v : bool) (s : State) : State :=
  mkState (searchQuery s) (page s) (images s) v (error s) (total s)
          (nextFetchPage s) (removingIndexes s) (tasks s) (next_task s)
          (requests s).
Definition set_error (v : option jsstring) (s : State) : State :=
  mkState (searchQuery s) (page s) (images s) (loading s) v (total s)
          (nextFetchPage s) (removingIndexes s) (tasks s) (next_task s)
          (requests s).
Definition set_total (v : Z) (s : State) : State :=
  mkState (searchQuery s) (page s) (images s) (loading s) (error s) v
          (nextFetchPage s) (removingIndexes s) (tasks s) (next_task s)
          (requests s).
Definition set_nextFetchPage (v : Z) (s : State) : State :=
  mkState (searchQuery s) (page s) (images s) (loading s) (error s) (total s)
          v (removingIndexes s) (tasks s) (next_task s) (requests s).
Definition set_removingIndexes (v : gset Z) (s : State) : State :=
  mkState (searchQuery s) (page s) (images s) (loading s) (error s) (total s)
          (nextFetchPage s) v (tasks s) (next_task s) (requests s).

(** Park a new async call under a fresh id. *)
Definition park (t : Task) (s : State) : State :=
  mkState (searchQuery s) (page s) (images s) (loading s) (error s) (total s)
          (nextFetchPage s) (removingIndexes s)
          (<[next_task s := t]> (tasks s)) (S (next_task s)) (requests s).
(** Park a running call again at its next [await]. *)
Definition repark (tid : nat) (t : Task) (s : State) : State :=
  mkState (searchQuery s) (page s) (images s) (loading s) (error s) (total s)
          (nextFetchPage s) (removingIndexes s)
          (<[tid := t]> (tasks s)) (next_task s) (requests s).
(** An async call ran to its end. *)
Definition finish (tid : nat) (s : State) : State :=
  mkState (searchQuery s) (page s) (images s) (loading s) (error s) (total s)
          (nextFetchPage s) (removingIndexes s)
          (delete tid (tasks s)) (next_task s) (requests s).
(** [fetch(url)] is called. *)
Definition send (r : Request) (s : State) : State :=
  mkState (searchQuery s) (page s) (images s) (loading s) (error s) (total s)
          (nextFetchPage s) (removingIndexes s) (tasks s) (next_task s)
          (requests s ++ [r]).

(* ===================================================================== *)
(** ** The controller *)
(* ===================================================================== *)

(** *** fetchImages *)

(** [fetchImages], up to its first [await]. *)
Definition fetchImages (s : State) : State :=
  if truthy (searchQuery s) then
    let s1 := set_error None (set_loading true s) in
    let req := mkReq (searchQuery s1) (page s1) perPage in
    park (PageFetch req) (send req s1)
  else set_images [] s.

(** The [try] block of [fetchImages] from the settled fetch to the parsed
    body: the three [throw]s and the rejections of the two awaits. *)
Definition fetchImages_try (o : FetchOutcome) : Completion SearchData :=
  match o with
  | NetworkError message => Throw message
  | Response status json =>
      if ok status then
        match json with
        | Throw message => Throw message
        | Normal data =>
            match d_error data with
            | Some e => if truthy e then Throw e else Normal data
            | None => Normal data
            end
        end
      else Throw (lit "HTTP " ++ dec status)
  end.

(** [fetchImages] from the settlement of its fetch to its end: the rest of
    the [try], the [catch] and the [finally]. *)
Definition fetchImages_resume (o : FetchOutcome) (s : State) : State :=
  let s' :=
    match fetchImages_try o with
    | Normal data =>
        let s1 := set_images (Item <$> default [] (d_results data)) s in
        let s2 := set_total (default 0 (d_total data)) s1 in
        set_nextFetchPage (page s2 + 1) s2
    | Throw message =>
        set_images [] (set_error (Some (or_else message msg_load_failed)) s)
    end in
  set_loading false s'.

(** [watch(() => [props.searchQuery, props.page], () => fetchImages())]: the
    callback runs when the parent gives either prop a new value. *)
Definition update_props (q : jsstring) (p : Z) (s : State) : State :=
  if bool_decide (q = searchQuery s ∧ p = page s) then s
  else fetchImages (set_props q p s).

(** The component as [setup()] leaves it, before the immediate watcher. *)
Definition setup (q : jsstring) (p : Z) : State :=
  {| searchQuery := q; page := p; images := []; loading := false;
     error := None; total := 0; nextFetchPage := p + 1;
     removingIndexes := ∅; tasks := ∅; next_task := 0; requests := [] |}.

(** [{ immediate: true }] *)
Definition mount (q : jsstring) (p : Z) : State := fetchImages (setup q p).

(** *** Navigation *)

(** [nextPage] and [prevPage]: the payload of the [update:page] event they
    emit, if any. *)
Definition nextPage (s : State) : option Z :=
  if page s <? 10 then Some (page s + 1) else None.
Definition prevPage (s : State) : option Z :=
  if 1 <? page s then Some (page s - 1) else None.

(** Modelled from the spec: the parent component that listens to
    [update:page] is not part of the sources.  "Navigation emits a
    page-changed event consumed by the (query, page) trigger": the parent
    passes the emitted number back as the [page] prop. *)
Definition on_update_page (emitted : option Z) (s : State) : State :=
  match emitted with
  | Some p => update_props (searchQuery s) p s
  | None => s
  end.

(** *** The template's bindings *)

Inductive View :=
| ShowError          (* v-if="error" *)
| ShowLoading        (* v-else-if="loading" *)
| ShowNothingFound   (* v-else-if="images.length === 0 && searchQuery" *)
| ShowGrid           (* v-else-if="images.length > 0" *)
| ShowNothing.

Definition view (s : State) : View :=
  if from_option truthy false (error s) then ShowError
  else if loading s then ShowLoading
  else if bool_decide (length (images s) = 0%nat) && truthy (searchQuery s)
       then ShowNothingFound
  else if bool_decide (0 < length (images s))%nat then ShowGrid
  else ShowNothing.

(** [:disabled="images.length < perPage"] on the forward button. *)
Definition next_disabled (s : State) : bool :=
  Z.of_nat (length (images s)) <? perPage.
(** [:disabled="page <= 1"] on the backward button. *)
Definition prev_disabled (s : State) : bool := page s <=? 1.
(** [:disabled="images.length === 0 || loading"] on the download button. *)
Definition download_disabled (s : State) : bool :=
  bool_decide (length (images s) = 0%nat) || loading s.

(** *** removeImageAt *)

(** [removeImageAt(index)], up to the timer. *)
Definition removeImageAt (index : Z) (s : State) : State :=
  if (index <? 0) || (Z.of_nat (length (images s)) <=? index) then s
  else park (RemovalDelay index)
            (set_removingIndexes ({[index]} ∪ removingIndexes s) s).

(** From the timer to the replacement fetch. *)
Definition removeImageAt_settled (tid : nat) (index : Z) (s : State) : State :=
  let s1 := set_images (splice index 1 [Placeholder] (images s)) s in
  let s2 := if 0 <? total s1 then set_total (total s1 - 1) s1 else s1 in
  let fetchPage := nextFetchPage s2 in
  let req := mkReq (searchQuery s2) fetchPage 1 in
  repark tid (ReplacementFetch index fetchPage req) (send req s2).

(** [(data.results && data.results[0]) || null] *)
Definition first_result (data : SearchData) : option ResultItem :=
  match d_results data with
  | Some (item :: _) => Some item
  | _ => None
  end.

(** From the settlement of the replacement fetch to the end. *)
Definition removeImageAt_resume (index fetchPage : Z) (o : FetchOutcome)
    (s : State) : State :=
  let drop_slot := set_images (splice index 1 [] (images s)) s in
  let s' :=
    match o with
    | NetworkError _ => drop_slot                       (* catch *)
    | Response status json =>
        if ok status then
          match json with
          | Throw _ => drop_slot                        (* catch *)
          | Normal data =>
              match first_result data with
              | Some item =>
                  set_nextFetchPage (fetchPage + 1)
                    (set_images (splice index 1 [Item item] (images s)) s)
              | None => drop_slot
              end
          end
        else drop_slot
    end in
  set_removingIndexes (removingIndexes s' ∖ {[index]}) s'.

(** *** The event loop *)

Inductive Event :=
| PropsChanged (q : jsstring) (p : Z)      (* the parent sets the props *)
| ClickNext
| ClickPrev
| DblClick (idx : nat)                     (* on the cell of v-for index idx *)
| TimerFired (tid : nat)
| FetchSettled (tid : nat) (o : FetchOutcome).

Definition step (s : State) (e : Event) : State :=
  match e with
  | PropsChanged q p => update_props q p s
  | ClickNext =>
      match view s with
      | ShowGrid =>
          if next_disabled s then s else on_update_page (nextPage s) s
      | _ => s
      end
  | ClickPrev =>
      match view s with
      | ShowGrid =>
          if prev_disabled s then s else on_update_page (prevPage s) s
      | _ => s
      end
  | DblClick idx =>
      match view s, images s !! idx with
      | ShowGrid, Some (Item _) => removeImageAt (Z.of_nat idx) s
      | _, _ => s
      end
  | TimerFired tid =>
      match tasks s !! tid with
      | Some (RemovalDelay index) => removeImageAt_settled tid index s
      | _ => s
      end
  | FetchSettled tid o =>
      match tasks s !! tid with
      | Some (PageFetch _) => fetchImages_resume o (finish tid s)
      | Some (ReplacementFetch index fetchPage _) =>
          removeImageAt_resume index fetchPage o (finish tid s)
      | _ => s
      end
  end.

Definition run (s : State) (evs : list Event) : State := foldl step s evs.

(* ===================================================================== *)
(** ** downloadZip: the export pipeline *)
(* ===================================================================== *)

(** [Array.prototype.slice(start, end)] *)
Definition slice {A} (start end_ : Z) (l : list A) : list A :=
  let len := Z.of_nat (length l) in
  let k := if start <? 0 then Z.max (len + start) 0 else Z.min start len in
  let final := if end_ <? 0 then Z.max (len + end_) 0 else Z.min end_ len in
  take (Z.to_nat (Z.max (final - k) 0)) (drop (Z.to_nat k) l).

(** [String.prototype.split(sep)] for a one-unit separator. *)
Fixpoint split (sep : N) (s : jsstring) : list jsstring :=
  match s with
  | [] => [[]]
  | c :: r =>
      if N.eqb c sep then [] :: split sep r
      else match split sep r with
           | [] => [[c]]
           | h :: t => (c :: h) :: t
           end
  end.

(** The class [\s] of a regular expression: WhiteSpace and LineTerminator
    code points, all of them in the basic plane. *)
Definition is_space (c : N) : bool :=
  ((0x09 <=? c) && (c <=? 0x0D) || (c =? 0x20) || (c =? 0xA0)
   || (c =? 0x1680) || (0x2000 <=? c) && (c <=? 0x200A)
   || (c =? 0x2028) || (c =? 0x2029) || (c =? 0x202F) || (c =? 0x205F)
   || (c =? 0x3000) || (c =? 0xFEFF))%N.

Definition underscore : N := 0x5F.
Definition slash : N := 0x2F.
Definition dot : N := 0x2E.

(** The scan of [s.replace(/\s+/g, '_')]: [in_match] tells that the greedy
    [\s+] is in the middle of a match, whose replacement is already out. *)
Fixpoint replace_spaces_from (in_match : bool) (s : jsstring) : jsstring :=
  match s with
  | [] => []
  | c :: r =>
      if is_space c then
        if in_match then replace_spaces_from true r
        else underscore :: replace_spaces_from true r
      else c :: replace_spaces_from false r
  end.

(** [s.replace(/\s+/g, '_')] *)
Definition replace_spaces (s : jsstring) : jsstring :=
  replace_spaces_from false s.

Definition concurrency : nat := 6.
(** [const size = 50] *)
Definition size_px : Z := 50.

(** A decoded [<img>]: where it came from and its intrinsic dimensions. *)
Record ImageEl := mkImage {
  src : jsstring;
  naturalWidth : Z;
  naturalHeight : Z
}.

(** One [ctx.drawImage(image, sx, sy, sWidth, sHeight, dx, dy, dWidth,
    dHeight)] call. *)
Record DrawImage := mkDraw {
  image : ImageEl;
  sx : Z; sy : Z; sWidth : Z; sHeight : Z;
  dx : Z; dy : Z; dWidth : Z; dHeight : Z
}.

(** A canvas: its dimensions and what was drawn on it. *)
Record Canvas := mkCanvas {
  width : Z;
  height : Z;
  drawn : list DrawImage
}.

Record Blob := mkBlob {
  type : jsstring;
  bytes : list N
}.

(** [{ index, blob, mime }], where [blob: null] is [None] and a missing
    [mime] is [None]. *)
Record BatchResult := mkResult {
  index : nat;
  blob : option Blob;
  mime : option jsstring
}.

(** What the browser hands to the user: the [download] attribute of the
    anchor and the file entries of the archive by name.  ([JSZip.file]
    replaces an entry of the same name; the directory entries JSZip adds for
    the path are its own business.) *)
Record Download := mkDownload {
  download : jsstring;
  files : gmap jsstring Blob
}.

(** The canvas the per-image callback passes to [canvasToBlob]: created,
    sized, and drawn on once. *)
Definition draw_center_cropped (imageEl : ImageEl) : Canvas :=
  let iw := naturalWidth imageEl in
  let ih := naturalHeight imageEl in
  let side := Z.min iw ih in
  let sx := Qfloor (inject_Z (iw - side) / 2) in
  let sy := Qfloor (inject_Z (ih - side) / 2) in
  {| width := size_px; height := size_px;
     drawn := [mkDraw imageEl sx sy side side 0 0 size_px size_px] |}.

(** [(r.mime && r.mime.split('/')[1]) || 'jpg'] *)
Definition ext_of (mime : option jsstring) : jsstring :=
  let second :=
    match mime with
    | Some m => if truthy m then split slash m !! 1%nat else None
    | None => None
    end in
  match second with
  | Some e => or_else e (lit "jpg")
  | None => lit "jpg"
  end.

(** [`images_${props.searchQuery.replace(/\s+/g, '_')}_page${props.page}`] *)
Definition folderName_of (q : jsstring) (p : Z) : jsstring :=
  lit "images_" ++ replace_spaces q ++ lit "_page" ++ dec p.

(** [`${folderName}/image_${props.page}_${r.index + 1}.${ext}`] *)
Definition entry_name (folderName : jsstring) (p : Z) (index : nat)
    (ext : jsstring) : jsstring :=
  folderName ++ lit "/image_" ++ dec p ++ lit "_"
    ++ dec (Z.of_nat index + 1) ++ lit "." ++ ext.

Section Pipeline.

(** The browser: [loadImage url] is the element that [onload] delivers, or
    [None] when [onerror] fires; [toBlob canvas type quality] is the blob
    the [canvas.toBlob] callback receives, or [None] for [null] and for a
    canvas that refuses to be read. *)
Variable loadImage : jsstring -> option ImageEl.
Variable toBlob : Canvas -> jsstring -> Q -> option Blob.

(** What [img.src = img.download_url] assigns: the setter turns the
    [undefined] of a placeholder into a string. *)
Definition url_of (img : Slot) : jsstring :=
  match img with
  | Item it => download_url it
  | Placeholder => lit "undefined"
  end.

(** [canvasToBlob(canvas)] *)
Definition canvasToBlob (canvas : Canvas) : option Blob :=
  toBlob canvas (lit "image/jpeg") (85 # 100)%Q.

(** The [try] block of the per-image callback: [None] when it throws. *)
Definition transcode (img : Slot) : option Blob :=
  match loadImage (url_of img) with
  | Some imageEl => canvasToBlob (draw_center_cropped imageEl)
  | None => None
  end.

(** The callback given to [map]: the [try] and its [catch]. *)
Definition process (i idx : nat) (img : Slot) : BatchResult :=
  let index := (i + idx)%nat in
  match transcode img with
  | Some b => mkResult index (Some b) (Some (type b))
  | None => mkResult index None None
  end.

(** The callback given to [batchResults.forEach]. *)
Definition add_result (folderName : jsstring) (p : Z)
    (zip : gmap jsstring Blob) (r : BatchResult) : gmap jsstring Blob :=
  match blob r with
  | Some b => <[entry_name folderName p (index r) (ext_of (mime r)) := b]> zip
  | None => zip
  end.

(** The [for] loop, from counter [i] on; [fuel] bounds the number of
    iterations. *)
Fixpoint batch_loop (fuel : nat) (imgs : list Slot) (folderName : jsstring)
    (p : Z) (i : nat) (zip : gmap jsstring Blob) : gmap jsstring Blob :=
  match fuel with
  | O => zip
  | S fuel' =>
      if bool_decide (i < length imgs)%nat then
        let batch :=
          imap (process i)
               (slice (Z.of_nat i) (Z.of_nat (i + concurrency)) imgs) in
        let zip' := foldl (add_result folderName p) zip batch in
        batch_loop fuel' imgs folderName p (i + concurrency)%nat zip'
      else zip
  end.

(** [downloadZip], run to its end with the props and [images.value] as
    they are when it starts and with an archive writer that does not fail:
    the state it leaves and the file it saves, if any. *)
Definition downloadZip (s : State) : State * option Download :=
  if bool_decide (length (images s) = 0%nat) then (s, None)
  else
    let s1 := set_error None s in
    let folderName := folderName_of (searchQuery s1) (page s1) in
    let zip :=
      batch_loop (length (images s1)) (images s1) folderName (page s1)
                 0%nat ∅ in
    (s1, Some (mkDownload (folderName ++ lit ".zip") zip)).

(** The entries the loop is to write for the images from index [i] on, in
    display order: one per image whose transcode succeeds. *)
Fixpoint entries_from (folderName : jsstring) (p : Z) (i : nat)
    (imgs : list Slot) : list (jsstring * Blob) :=
  match imgs with
  | [] => []
  | img :: rest =>
      match transcode img with
      | Some b =>
          (entry_name folderName p i (ext_of (Some (type b))), b)
            :: entries_from folderName p (S i) rest
      | None => entries_from folderName p (S i) rest
      end
  end.

End Pipeline.

(** [zip.file(name, blob)] on a pair. *)
Definition write (zip : gmap jsstring Blob) (e : jsstring * Blob) :
    gmap jsstring Blob :=
  <[e.1 := e.2]> zip.


(* ===================================================================== *)
(** ** Vocabulary of the specification *)
(* ===================================================================== *)

(** A replacement fetch "succeeds with a non-empty result" [item]: the
    response is ok, its JSON parses and [results] starts with [item]. *)
Definition delivers (o : FetchOutcome) (item : ResultItem) : Prop :=
  ∃ status data rest,
    o = Response status (Normal data) ∧ ok status = true
    ∧ d_results data = Some (item :: rest).

(** A page-level fetch "succeeds" with body [data]: the response is ok, its
    JSON parses and carries no [error]. *)
Definition succeeds (o : FetchOutcome) (data : SearchData) : Prop :=
  ∃ status,
    o = Response status (Normal data) ∧ ok status = true
    ∧ (d_error data = None ∨ d_error data = Some []).

(** A fetch "whose triggering parameters no longer match the controller's
    current parameters". *)
Definition stale (s : State) (req : Request) : Prop :=
  (req_query req, req_page req) ≠ (searchQuery s, page s).

(** The centered square crop in the words of the specification:
    [(side, sx, sy)] with integer floor division. *)
Definition centered_square (w h : Z) : Z * Z * Z :=
  let side := Z.min w h in
  (side, (w - side) / 2, (h - side) / 2).

(** A string cut into its maximal runs of whitespace and of other code
    units, each tagged with its kind. *)
Fixpoint runs (s : jsstring) : list (bool * jsstring) :=
  match s with
  | [] => []
  | c :: r =>
      match runs r with
      | (ws, run) :: rest =>
          if Bool.eqb ws (is_space c) then (ws, c :: run) :: rest
          else (is_space c, [c]) :: (ws, run) :: rest
      | [] => [(is_space c, [c])]
      end
  end.

(** Neighbouring runs are of different kinds. *)
Fixpoint alternating (l : list (bool * jsstring)) : Prop :=
  match l with
  | r1 :: ((r2 :: _) as rest) => r1.1 ≠ r2.1 ∧ alternating rest
  | _ => True
  end.

(** "Every whitespace run collapsed to a single filler character". *)
Definition collapse_run (r : bool * jsstring) : jsstring :=
  if r.1 then [underscore] else r.2.
Definition collapse_whitespace_runs (s : jsstring) : jsstring :=
  concat (collapse_run <$> runs s).

(** Data for the worked examples. *)
Module Sample.
Definition cat : jsstring := lit "cat".
Definition dog : jsstring := lit "dog".
Definition hit (name : string) : ResultItem :=
  mkItem (lit name) (lit "https://img.example/" ++ lit name) None.
Definition found (l : list ResultItem) (n : Z) : FetchOutcome :=
  Response 200 (Normal (mkData (Some l) (Some n) None)).
Definition full_page : list ResultItem :=
  (λ n, mkItem (dec n) (lit "https://img.example/" ++ dec n) None)
    <$> seqZ 1 50.
(** A browser in which every image but [broken] loads as 800x600 and every
    canvas encodes to an empty JPEG. *)
Definition loads_all_but (broken : list jsstring) (url : jsstring) :
    option ImageEl :=
  if bool_decide (url ∈ broken) then None else Some (mkImage url 800 600).
Definition encodes (canvas : Canvas) (t : jsstring) (quality : Q) :
    option Blob :=
  Some (mkBlob t []).
End Sample.

(* ===================================================================== *)
(** ** Failing transcodes and queries that do not encode *)
(* ===================================================================== *)


(** The surrogate code units. *)
Definition is_high_surrogate (c : N) : bool :=
  ((0xD800 <=? c) && (c <=? 0xDBFF))%N.
Definition is_low_surrogate (c : N) : bool :=
  ((0xDC00 <=? c) && (c <=? 0xDFFF))%N.

(** A string without a lone surrogate.  [encodeURIComponent] throws a
    [URIError] on every other string, and it is called inside the [try] of
    [fetchImages] and of [removeImageAt]; the embedding of the two follows
    them on the queries that encode. *)
Fixpoint well_formed (s : jsstring) : bool :=
  match s with
  | [] => true
  | c :: r =>
      if is_high_surrogate c then
        match r with
        | d :: r' => is_low_surrogate d && well_formed r'
        | [] => false
        end
      else negb (is_low_surrogate c) && well_formed r
  end.

(** The query an event may send a page request for encodes. *)
Definition encodable (s : State) (e : Event) : Prop :=
  match e with
  | PropsChanged q _ => well_formed q = true
  | ClickNext | ClickPrev => well_formed (searchQuery s) = true
  | _ => True
  end.

(* ===================================================================== *)
(** ** Reachable states and what they keep *)
(* ===================================================================== *)

(** The states the component can be in: mounted on some props, then driven
    by events. *)
Definition reachable (s : State) : Prop :=
  ∃ q p evs, s = run (mount q p) evs.

(** The two kinds of request in the source: a page ([per_page=50], sent only
    past the guard on the query) and a replacement ([per_page=1]). *)
Definition well_formed_request (r : Request) : Prop :=
  (req_per_page r = perPage ∧ truthy (req_query r) = true)
  ∨ req_per_page r = 1.

(** A parked call that waits for a response waits for a request that was
    sent. *)
Definition logged (s : State) (t : Task) : Prop :=
  match t with
  | PageFetch req =>
      req ∈ requests s ∧ req_per_page req = perPage
      ∧ truthy (req_query req) = true
  | RemovalDelay _ => True
  | ReplacementFetch _ fetchPage req =>
      req ∈ requests s ∧ req_page req = fetchPage ∧ req_per_page req = 1
  end.

Record consistent (s : State) : Prop := mkConsistent {
  ids_fresh : ∀ tid t, tasks s !! tid = Some t → (tid < next_task s)%nat;
  loading_has_fetch :
    loading s = true → ∃ tid req, tasks s !! tid = Some (PageFetch req);
  error_truthy : ∀ m, error s = Some m → truthy m = true;
  requests_shape : Forall well_formed_request (requests s);
  parked_logged : ∀ tid t, tasks s !! tid = Some t → logged s t
}.

(** The total a settled fetch carries, if it carries one, is not negative. *)
Definition total_nonneg (e : Event) : Prop :=
  match e with
  | FetchSettled _ (Response _ (Normal data)) => 0 ≤ default 0 (d_total data)
  | _ => True
  end.

(** An event of a removal: a double click, a timer, or the settlement of a
    replacement fetch. *)
Definition removal_event (s : State) (e : Event) : Prop :=
  match e with
  | DblClick _ | TimerFired _ => True
  | FetchSettled tid _ =>
      ∃ i fetchPage req,
        tasks s !! tid = Some (ReplacementFetch i fetchPage req)
  | _ => False
  end.

(* ===================================================================== *)
(** ** The batches of the export loop *)
(* ===================================================================== *)

(** The batches the loop takes, one [images.value.slice(i, i + concurrency)]
    per iteration. *)
Fixpoint batch_slices (fuel : nat) (imgs : list Slot) (i : nat) :
    list (list Slot) :=
  match fuel with
  | O => []
  | S fuel' =>
      if bool_decide (i < length imgs)%nat then
        slice (Z.of_nat i) (Z.of_nat (i + concurrency)) imgs
          :: batch_slices fuel' imgs (i + concurrency)
      else []
  end.

(** One iteration of the loop on its batch, from the archive and the counter
    before it to those after it: the whole batch is processed
    ([Promise.all]), then its results are written. *)
Definition run_batch (loadImage : jsstring → option ImageEl)
    (toBlob : Canvas → jsstring → Q → option Blob)
    (folderName : jsstring) (p : Z)
    (acc : gmap jsstring Blob * nat) (batch : list Slot) :
    gmap jsstring Blob * nat :=
  (foldl (add_result folderName p) acc.1
         (imap (process loadImage toBlob acc.2) batch),
   (acc.2 + concurrency)%nat).

(* ===================================================================== *)
(** ** downloadZip in the earlier revision *)
(* ===================================================================== *)

(** [frontend/src/components/ImageGrid.vue] zips what it downloads, without
    a canvas.  What [fetch(url, { mode: 'cors' })] followed by [res.blob()]
    delivers: the fetch is rejected, or a response arrives whose body is
    read as a blob ([None] when reading it fails). *)
Inductive BlobOutcome :=
| BlobNetworkError
| BlobResponse (status : Z) (body : option Blob).

Section Earlier.

Variable fetchUrl : jsstring → BlobOutcome.

(** [fetchBlob(url)]: [None] when it throws. *)
Definition fetchBlob (url : jsstring) : option Blob :=
  match fetchUrl url with
  | BlobNetworkError => None
  | BlobResponse status body => if ok status then body else None
  end.

(** The callback given to [map]: the [then] and the [catch]. *)
Definition fetch_item (i idx : nat) (img : Slot) : BatchResult :=
  let index := (i + idx)%nat in
  match fetchBlob (url_of img) with
  | Some b => mkResult index (Some b) (Some (type b))
  | None => mkResult index None None
  end.

(** The [for] loop of the earlier revision. *)
Fixpoint batch_loop_earlier (fuel : nat) (imgs : list Slot)
    (folderName : jsstring) (p : Z) (i : nat) (zip : gmap jsstring Blob) :
    gmap jsstring Blob :=
  match fuel with
  | O => zip
  | S fuel' =>
      if bool_decide (i < length imgs)%nat then
        let batch :=
          imap (fetch_item i)
               (slice (Z.of_nat i) (Z.of_nat (i + concurrency)) imgs) in
        let zip' := foldl (add_result folderName p) zip batch in
        batch_loop_earlier fuel' imgs folderName p (i + concurrency)%nat zip'
      else zip
  end.

(** [downloadZip] of the earlier revision, run to its end as the later one
    is: it raises [loading] for the time of the export and lowers it in its
    [finally]. *)
Definition downloadZip_earlier (s : State) : State * option Download :=
  if bool_decide (length (images s) = 0%nat) then (s, None)
  else
    let s1 := set_error None (set_loading true s) in
    let folderName := folderName_of (searchQuery s1) (page s1) in
    let zip :=
      batch_loop_earlier (length (images s1)) (images s1) folderName
                         (page s1) 0%nat ∅ in
    (set_loading false s1,
     Some (mkDownload (folderName ++ lit ".zip") zip)).

(** A browser in which the later revision does what the earlier one does:
    every source loads, and encoding a canvas hands out the download of the
    source drawn on it. *)
Definition loads_as_itself (url : jsstring) : option ImageEl :=
  Some (mkImage url 0 0).
Definition encodes_download (canvas : Canvas) (t : jsstring) (quality : Q) :
    option Blob :=
  match drawn canvas with
  | [d] => fetchBlob (src (image d))
  | _ => None
  end.

End Earlier.

(** Data for the worked examples of the earlier revision. *)
Module Sample_earlier.
(** A server that has every image as a PNG but those in [missing]. *)
Definition serves_png_but (missing : list jsstring) (url : jsstring) :
    BlobOutcome :=
  if bool_decide (url ∈ missing) then BlobResponse 404 None
  else BlobResponse 200 (Some (mkBlob (lit "image/png") [])).
End Sample_earlier.

(* ===================================================================== *)
(** ** Facts about the JavaScript primitives *)
(* ===================================================================== *)

(** In range, [splice(i, 1, x)] overwrites and [splice(i, 1)] deletes. *)
Lemma splice_replace {A} (i : Z) (x : A) (l : list A) :
  0 ≤ i < Z.of_nat (length l) →
  splice i 1 [x] l = <[Z.to_nat i := x]> l.
Proof.
  intros Hi. unfold splice.
  assert ((i <? 0) = false) as -> by lia.
  rewrite Z.min_l by lia.
  replace (Z.min (Z.max 1 0) (Z.of_nat (length l) - i)) with 1 by lia.
  replace (Z.to_nat (i + 1)) with (S (Z.to_nat i)) by lia.
  symmetry. apply insert_take_drop. lia.
Qed.

Lemma splice_delete {A} (i : Z) (l : list A) :
  0 ≤ i < Z.of_nat (length l) →
  splice i 1 [] l = delete (Z.to_nat i) l.
Proof.
  intros Hi. unfold splice.
  assert ((i <? 0) = false) as -> by lia.
  rewrite Z.min_l by lia.
  replace (Z.min (Z.max 1 0) (Z.of_nat (length l) - i)) with 1 by lia.
  replace (Z.to_nat (i + 1)) with (S (Z.to_nat i)) by lia.
  symmetry. apply delete_take_drop.
Qed.

(** One batch of the export loop. *)
Lemma slice_batch {A} (i n : nat) (l : list A) :
  (i < length l)%nat →
  slice (Z.of_nat i) (Z.of_nat (i + n)) l = take n (drop i l).
Proof.
  intros Hi. unfold slice.
  assert ((Z.of_nat i <? 0) = false) as -> by (apply Z.ltb_ge; lia).
  assert ((Z.of_nat (i + n) <? 0) = false) as -> by (apply Z.ltb_ge; lia).
  rewrite (Z.min_l (Z.of_nat i)) by lia. rewrite Nat2Z.id.
  destruct (decide (i + n ≤ length l)%nat) as [Hle | Hgt].
  - f_equal. lia.
  - rewrite Z.min_r by lia.
    rewrite !take_ge; [done | rewrite length_drop; lia ..].
Qed.

(** [Math.floor(z / 2)] on an integer is floor division. *)
Lemma Qfloor_half (z : Z) : Qfloor (inject_Z z / 2) = z / 2.
Proof.
  unfold Qdiv, Qmult, Qinv, inject_Z. simpl. rewrite Z.mul_1_r. reflexivity.
Qed.

(** *** Literals and numerals *)

Lemma lit_inj (a b : string) : lit a = lit b → a = b.
Proof.
  unfold lit. intros H.
  rewrite <- (string_of_list_ascii_of_string a),
          <- (string_of_list_ascii_of_string b).
  f_equal. revert H.
  generalize (list_ascii_of_string a) (list_ascii_of_string b).
  induction l as [ | x l IH]; intros [ | y l']; simpl; try done.
  intros [= Hxy Hl]. f_equal; [ | by apply IH].
  rewrite <- (ascii_N_embedding x), <- (ascii_N_embedding y). by rewrite Hxy.
Qed.

Lemma dec_inj (a b : Z) : dec a = dec b → a = b.
Proof.
  unfold dec. intros H%lit_inj.
  assert (Hnn : ∀ z, Z.to_int z ≠ Decimal.Pos Decimal.Nil
                     ∧ Z.to_int z ≠ Decimal.Neg Decimal.Nil).
  { intros [ | p | p]; simpl; split; try done;
      intros [= Hp]; by apply (Unsigned.to_uint_nonnil p). }
  assert (Hi : Z.to_int a = Z.to_int b).
  { destruct (Hnn a), (Hnn b).
    assert (Some (Z.to_int a) = Some (Z.to_int b)) as [= ->]; [ | done].
    rewrite <- (NilZero.isi (Z.to_int a)), <- (NilZero.isi (Z.to_int b))
      by done.
    by rewrite H. }
  rewrite <- (DecimalZ.of_to a), <- (DecimalZ.of_to b). by rewrite Hi.
Qed.

(** A numeral has no dot in it. *)
Lemma dot_not_in_uint (d : Decimal.uint) :
  dot ∉ lit (NilEmpty.string_of_uint d).
Proof.
  unfold lit. induction d; simpl; rewrite ?not_elem_of_cons;
    [apply not_elem_of_nil | ..]; (split; [done | exact IHd]).
Qed.

Lemma dot_not_in_dec (z : Z) : dot ∉ dec z.
Proof.
  assert (Hu : ∀ d, dot ∉ lit (NilZero.string_of_uint d)).
  { intros d. destruct d; try apply dot_not_in_uint.
    unfold lit. simpl. rewrite not_elem_of_cons.
    split; [done | apply not_elem_of_nil]. }
  unfold dec. destruct (Z.to_int z) as [d | d]; simpl; [apply Hu | ].
  change (lit (String "-" (NilZero.string_of_uint d)))
    with (45%N :: lit (NilZero.string_of_uint d)).
  rewrite not_elem_of_cons. split; [done | apply Hu].
Qed.

(** Two strings that agree up to and including the first [c] of each have
    the same part before it. *)
Lemma app_sep_inv (c : N) (u v x y : jsstring) :
  c ∉ u → c ∉ v → u ++ c :: x = v ++ c :: y → u = v.
Proof.
  revert v. induction u as [ | a u IH]; intros [ | b v] Hu Hv; simpl;
    try done.
  - intros [= -> _]. apply not_elem_of_cons in Hv as [Hv _]. done.
  - intros [= -> _]. apply not_elem_of_cons in Hu as [Hu _]. done.
  - apply not_elem_of_cons in Hu as [_ Hu].
    apply not_elem_of_cons in Hv as [_ Hv].
    intros [= -> H]. f_equal. by apply IH.
Qed.

(** The index can be read back from an entry name, whatever the extension. *)
Lemma entry_name_inj (folderName : jsstring) (p : Z) (i j : nat)
    (e e' : jsstring) :
  entry_name folderName p i e = entry_name folderName p j e' → i = j.
Proof.
  unfold entry_name. intros H.
  do 4 apply app_inv_head in H.
  change (lit "." ++ e) with (dot :: e) in H.
  change (lit "." ++ e') with (dot :: e') in H.
  apply app_sep_inv in H; [ | apply dot_not_in_dec ..].
  apply dec_inj in H. lia.
Qed.

(** *** split and the extension *)

Lemma split_no_sep (sep : N) (u : jsstring) : sep ∉ u → split sep u = [u].
Proof.
  induction u as [ | c u IH]; [done | ]. rewrite not_elem_of_cons.
  intros [Hc Hu]. simpl. rewrite (proj2 (N.eqb_neq c sep)) by done.
  by rewrite IH.
Qed.

Lemma split_app_sep (sep : N) (u v : jsstring) :
  sep ∉ u → split sep (u ++ sep :: v) = u :: split sep v.
Proof.
  induction u as [ | c u IH]; simpl.
  - intros _. by rewrite N.eqb_refl.
  - rewrite not_elem_of_cons. intros [Hc Hu].
    rewrite (proj2 (N.eqb_neq c sep)) by done. by rewrite IH.
Qed.

(** For a media type [major/minor] the extension is [minor], or [jpg] when
    [minor] is empty. *)
Lemma ext_of_subtype (major minor : jsstring) :
  slash ∉ major → slash ∉ minor →
  ext_of (Some (major ++ slash :: minor)) = or_else minor (lit "jpg").
Proof.
  intros Hmaj Hmin. unfold ext_of.
  assert (truthy (major ++ slash :: minor) = true) as ->
    by (by destruct major).
  rewrite split_app_sep, split_no_sep by done. reflexivity.
Qed.

Lemma ext_of_no_subtype (m : jsstring) :
  slash ∉ m → ext_of (Some m) = lit "jpg".
Proof.
  intros Hm. unfold ext_of. destruct (truthy m); [ | done].
  by rewrite split_no_sep.
Qed.

(** *** Whitespace runs *)

(** [runs] only cuts: gluing the runs gives the string back. *)
Lemma runs_concat (s : jsstring) : concat ((runs s).*2) = s.
Proof.
  induction s as [ | c r IH]; [done | ]. simpl.
  destruct (runs r) as [ | [ws run] rest]; simpl in *; [by rewrite <- IH | ].
  destruct (Bool.eqb ws (is_space c)); simpl; by rewrite <- IH.
Qed.

(** Each run is non-empty and of one kind, the one it is tagged with. *)
Lemma runs_uniform (s : jsstring) :
  Forall (λ r, r.2 ≠ [] ∧ Forall (λ c, is_space c = r.1) r.2) (runs s).
Proof.
  induction s as [ | c r IH]; simpl; [constructor | ].
  destruct (runs r) as [ | [ws run] rest]; simpl in *.
  - repeat constructor; done.
  - destruct (Bool.eqb ws (is_space c)) eqn:E.
    + apply Bool.eqb_prop in E. inversion_clear IH as [ | ? ? [? ?] ?].
      constructor; [ | done]. simpl in *. split; [done | ].
      constructor; [done | done].
    + constructor; [ | done]. simpl. split; [done | by repeat constructor].
Qed.

(** The runs are maximal. *)
Lemma runs_alternating (s : jsstring) : alternating (runs s).
Proof.
  induction s as [ | c r IH]; simpl; [done | ].
  destruct (runs r) as [ | [ws run] rest]; simpl in *; [done | ].
  destruct (Bool.eqb ws (is_space c)) eqn:E; simpl.
  - destruct rest; [done | ]. done.
  - split; [ | done]. apply Bool.eqb_false_iff in E. congruence.
Qed.

(** The scan of the regular expression, outside and inside a match, in
    terms of the runs. *)
Lemma replace_spaces_from_runs (s : jsstring) :
  replace_spaces_from false s = concat (collapse_run <$> runs s)
  ∧ replace_spaces_from true s
    = match runs s with
      | (true, _) :: rest => concat (collapse_run <$> rest)
      | l => concat (collapse_run <$> l)
      end.
Proof.
  induction s as [ | c r [IHf IHt]]; [done | ]. simpl.
  destruct (is_space c) eqn:Hc.
  - rewrite IHt. destruct (runs r) as [ | [[ | ] run] rest]; by simpl.
  - rewrite IHf. destruct (runs r) as [ | [[ | ] run] rest]; by simpl.
Qed.

Lemma replace_spaces_collapses (s : jsstring) :
  replace_spaces s = collapse_whitespace_runs s.
Proof. apply replace_spaces_from_runs. Qed.

(* ===================================================================== *)
(** ** Facts about the controller *)
(* ===================================================================== *)

(** *** Outcomes of a page-level fetch *)

Lemma try_succeeds (o : FetchOutcome) (data : SearchData) :
  fetchImages_try o = Normal data ↔ succeeds o data.
Proof.
  split.
  - destruct o as [m | status [d | m]]; simpl; [done | | ].
    + destruct (ok status) eqn:Hok; [ | done].
      destruct (d_error d) as [[ | c e] | ] eqn:He; simpl; intros [= <-];
        exists status; eauto.
    + by destruct (ok status).
  - intros (status & -> & Hok & He). simpl. rewrite Hok.
    by destruct He as [-> | ->].
Qed.

Lemma try_fails (o : FetchOutcome) :
  (∀ data, ¬ succeeds o data) ↔ ∃ m, fetchImages_try o = Throw m.
Proof.
  split.
  - intros Hno. destruct (fetchImages_try o) as [data | m] eqn:E; [ | eauto].
    apply try_succeeds in E. by destruct (Hno data).
  - intros [m Hm] data Hs. apply try_succeeds in Hs. congruence.
Qed.

Lemma step_page_fetch (s : State) (tid : nat) (req : Request)
    (o : FetchOutcome) :
  tasks s !! tid = Some (PageFetch req) →
  step s (FetchSettled tid o) = fetchImages_resume o (finish tid s).
Proof. intros Ht. simpl. by rewrite Ht. Qed.

Lemma step_page_fetch_succeeds (s : State) (tid : nat) (req : Request)
    (o : FetchOutcome) (data : SearchData) :
  tasks s !! tid = Some (PageFetch req) → succeeds o data →
  step s (FetchSettled tid o)
  = set_loading false
      (set_nextFetchPage (page s + 1)
         (set_total (default 0 (d_total data))
            (set_images (Item <$> default [] (d_results data))
               (finish tid s)))).
Proof.
  intros Ht Hs. rewrite (step_page_fetch s tid req o Ht).
  unfold fetchImages_resume. apply try_succeeds in Hs. rewrite Hs.
  reflexivity.
Qed.

(** *** Outcomes of a replacement fetch *)

Lemma delivers_dec (o : FetchOutcome) :
  (∃ item, delivers o item) ∨ (∀ item, ¬ delivers o item).
Proof.
  destruct o as [m | status [data | m]];
    [right; intros item (? & ? & ? & ? & _); done
    |
    | right; intros item (? & ? & ? & ? & _); done].
  destruct (ok status) eqn:Hok.
  - destruct (d_results data) as [[ | item rest] | ] eqn:Hres.
    + right. intros item (? & ? & ? & [= <- <-] & _ & ?). congruence.
    + left. exists item, status, data, rest. done.
    + right. intros item (? & ? & ? & [= <- <-] & _ & ?). congruence.
  - right. intros item (? & ? & ? & [= <- <-] & ? & _). congruence.
Qed.

Lemma step_replacement_fetch (s : State) (tid : nat) (i fp : Z)
    (req : Request) (o : FetchOutcome) :
  tasks s !! tid = Some (ReplacementFetch i fp req) →
  step s (FetchSettled tid o) = removeImageAt_resume i fp o (finish tid s).
Proof. intros Ht. simpl. by rewrite Ht. Qed.

Lemma resume_delivers (i fp : Z) (o : FetchOutcome) (item : ResultItem)
    (s : State) :
  delivers o item →
  images (removeImageAt_resume i fp o s) = splice i 1 [Item item] (images s)
  ∧ nextFetchPage (removeImageAt_resume i fp o s) = fp + 1.
Proof.
  intros (status & data & rest & -> & Hok & Hres).
  unfold removeImageAt_resume, first_result. rewrite Hok, Hres. done.
Qed.

Lemma resume_fails (i fp : Z) (o : FetchOutcome) (s : State) :
  (∀ item, ¬ delivers o item) →
  images (removeImageAt_resume i fp o s) = splice i 1 [] (images s)
  ∧ nextFetchPage (removeImageAt_resume i fp o s) = nextFetchPage s.
Proof.
  intros Hno. unfold removeImageAt_resume, first_result.
  destruct o as [m | status [data | m]]; [done | | ].
  - destruct (ok status) eqn:Hok; [ | done].
    destruct (d_results data) as [[ | item rest] | ] eqn:Hres;
      [done | | done].
    exfalso. apply (Hno item). by exists status, data, rest.
  - by destruct (ok status).
Qed.

(** A replacement fetch touches neither the request log nor the total. *)
Lemma resume_frame (i fp : Z) (o : FetchOutcome) (s : State) :
  requests (removeImageAt_resume i fp o s) = requests s
  ∧ total (removeImageAt_resume i fp o s) = total s.
Proof.
  unfold removeImageAt_resume.
  destruct o as [m | status [data | m]]; simpl; try done;
    destruct (ok status); simpl; try done.
  by destruct (first_result data).
Qed.

Lemma removeImageAt_in_range (s : State) (i : Z) :
  0 ≤ i < Z.of_nat (length (images s)) →
  removeImageAt i s
  = park (RemovalDelay i)
         (set_removingIndexes ({[i]} ∪ removingIndexes s) s).
Proof.
  intros Hi. unfold removeImageAt.
  assert ((i <? 0) || (Z.of_nat (length (images s)) <=? i) = false) as ->
    by (apply orb_false_iff; lia).
  reflexivity.
Qed.

(** The stage between the timer and the replacement fetch, field by
    field. *)
Lemma removeImageAt_settled_fields (tid : nat) (i : Z) (s : State) :
  let s' := removeImageAt_settled tid i s in
  images s' = splice i 1 [Placeholder] (images s)
  ∧ total s' = (if 0 <? total s then total s - 1 else total s)
  ∧ requests s'
    = requests s ++ [mkReq (searchQuery s) (nextFetchPage s) 1]
  ∧ tasks s'
    = <[tid := ReplacementFetch i (nextFetchPage s)
                 (mkReq (searchQuery s) (nextFetchPage s) 1)]> (tasks s)
  ∧ removingIndexes s' = removingIndexes s.
Proof.
  unfold removeImageAt_settled. simpl.
  destruct (0 <? total s); simpl; split_and!; reflexivity.
Qed.

(** *** What leaves the props and the cursor alone *)

Lemma page_fetchImages (s : State) : page (fetchImages s) = page s.
Proof. unfold fetchImages. by destruct (truthy (searchQuery s)). Qed.

Lemma page_update_props (q : jsstring) (p : Z) (s : State) :
  page (update_props q p s) = p.
Proof.
  unfold update_props. case_bool_decide as H.
  - by destruct H as [_ ->].
  - by rewrite page_fetchImages.
Qed.

Lemma page_click_next (s : State) :
  page (step s ClickNext) = page s
  ∨ (page s < 10 ∧ page (step s ClickNext) = page s + 1).
Proof.
  simpl. destruct (view s); auto. destruct (next_disabled s); auto.
  unfold nextPage. destruct (page s <? 10) eqn:E; simpl; auto.
  right. rewrite page_update_props. lia.
Qed.

Lemma page_click_prev (s : State) :
  page (step s ClickPrev) = page s
  ∨ (1 < page s ∧ page (step s ClickPrev) = page s - 1).
Proof.
  simpl. destruct (view s); auto. destruct (prev_disabled s); auto.
  unfold prevPage. destruct (1 <? page s) eqn:E; simpl; auto.
  right. rewrite page_update_props. lia.
Qed.





Lemma nextFetchPage_settled (tid : nat) (i : Z) (s : State) :
  nextFetchPage (removeImageAt_settled tid i s) = nextFetchPage s.
Proof. unfold removeImageAt_settled. simpl. by destruct (0 <? total s). Qed.

(* ===================================================================== *)
(** ** Page-level fetches and the parameters they were issued for *)
(* ===================================================================== *)

(** C1, counterexample.  The component is mounted on ("cat", 1); before that
    page arrives the query changes to "dog"; the "dog" page settles first and
    fills the grid.  The "cat" fetch is then still parked and stale, and when
    it settles it replaces the grid and the total by its own results although
    the query on display is still "dog". *)
Lemma stale_fetch_overwrites_grid :
  let s := run (mount Sample.cat 1)
             [PropsChanged Sample.dog 1;
              FetchSettled 1 (Sample.found [Sample.hit "rex"] 1)] in
  let s' := step s (FetchSettled 0 (Sample.found [Sample.hit "tom"] 7)) in
  tasks s !! 0%nat = Some (PageFetch (mkReq Sample.cat 1 50))
  ∧ stale s (mkReq Sample.cat 1 50)
  ∧ searchQuery s = Sample.dog
  ∧ images s = [Item (Sample.hit "rex")] ∧ total s = 1
  ∧ searchQuery s' = Sample.dog
  ∧ images s' = [Item (Sample.hit "tom")] ∧ total s' = 7
  ∧ images s' ≠ images s.
Proof. cbv zeta. split_and!; done. Qed.

(** C1, as the code has it.  When a parked page-level fetch settles, its
    outcome is applied whatever the current query and page are: if it
    succeeded, the grid and the total become its results and its total; if it
    failed, the grid is emptied.  Nothing compares the request with the
    current props.  Hence of two page-level fetches in flight the one that
    settles last decides the grid. *)
Theorem page_fetch_applies_whatever_the_parameters
    (s : State) (tid : nat) (req : Request) (o : FetchOutcome) :
  tasks s !! tid = Some (PageFetch req) →
  let s' := step s (FetchSettled tid o) in
  (∀ data, succeeds o data →
     images s' = Item <$> default [] (d_results data)
     ∧ total s' = default 0 (d_total data))
  ∧ ((∀ data, ¬ succeeds o data) → images s' = [] ∧ total s' = total s)
  ∧ (∀ tid2 req2 o2 data2,
       tid2 ≠ tid → tasks s !! tid2 = Some (PageFetch req2) →
       succeeds o2 data2 →
       images (step s' (FetchSettled tid2 o2))
       = Item <$> default [] (d_results data2)
       ∧ total (step s' (FetchSettled tid2 o2)) = default 0 (d_total data2)).
Proof.
  intros Ht s'.
  assert (Hok : ∀ (s0 : State) tid0 req0 o0 data,
            tasks s0 !! tid0 = Some (PageFetch req0) → succeeds o0 data →
            images (step s0 (FetchSettled tid0 o0))
            = Item <$> default [] (d_results data)
            ∧ total (step s0 (FetchSettled tid0 o0))
              = default 0 (d_total data)).
  { intros s0 tid0 req0 o0 data H0 Hs.
    by rewrite (step_page_fetch_succeeds s0 tid0 req0 o0 data H0 Hs). }
  split_and!.
  - intros data Hs. by apply (Hok s tid req).
  - intros Hno. apply try_fails in Hno as [m Hm].
    unfold s'. rewrite (step_page_fetch s tid req o Ht).
    unfold fetchImages_resume. rewrite Hm. done.
  - intros tid2 req2 o2 data2 Hne Ht2 Hs. apply (Hok s' tid2 req2); [ | done].
    unfold s'. rewrite (step_page_fetch s tid req o Ht).
    unfold fetchImages_resume.
    destruct (fetchImages_try o); simpl; by rewrite lookup_delete_ne.
Qed.

Lemma page_fetch_applies_whatever_the_parameters_witness :
  let s := run (mount Sample.cat 1)
             [PropsChanged Sample.dog 1;
              FetchSettled 1 (Sample.found [Sample.hit "rex"] 1)] in
  let o := Sample.found [Sample.hit "tom"] 7 in
  tasks s !! 0%nat = Some (PageFetch (mkReq Sample.cat 1 50))
  ∧ images (step s (FetchSettled 0 o)) = [Item (Sample.hit "tom")]
  ∧ total (step s (FetchSettled 0 o)) = 7.
Proof.
  intros s o. split; [reflexivity | ].
  destruct (page_fetch_applies_whatever_the_parameters s 0%nat
              (mkReq Sample.cat 1 50) o eq_refl)
    as [Hok _].
  apply (Hok (mkData (Some [Sample.hit "tom"]) (Some 7) None)).
  exists 200. split_and!; [reflexivity | reflexivity | by left].
Defined.

(* ===================================================================== *)
(** ** Removing an image *)
(* ===================================================================== *)

(** C2, the code at the failing input.  A page of four images a, b, c, d is
    on display; the cells 0 and 2 are double-clicked and both timers expire
    before either replacement arrives.  Both replacements were asked of the
    same overflow page.  If the replacement for cell 0 comes back empty
    first, the grid shrinks and the placeholder of cell 2 moves to
    position 1; the replacement for cell 2 is then written at the captured
    position 2, over d, and the placeholder stays.  In the other order the
    grid ends as b, x, d.  If both come back with the item of the page they
    both asked for, it is on display twice. *)
Lemma overlapping_removals_misplace :
  let s := run (mount Sample.cat 1)
             [FetchSettled 0
                (Sample.found [Sample.hit "a"; Sample.hit "b";
                               Sample.hit "c"; Sample.hit "d"] 4);
              DblClick 0; DblClick 2; TimerFired 1; TimerFired 2] in
  images s
  = [Placeholder; Item (Sample.hit "b"); Placeholder; Item (Sample.hit "d")]
  ∧ tasks s !! 1%nat = Some (ReplacementFetch 0 2 (mkReq Sample.cat 2 1))
  ∧ tasks s !! 2%nat = Some (ReplacementFetch 2 2 (mkReq Sample.cat 2 1))
  ∧ images (run s [FetchSettled 1 (Sample.found [] 0);
                   FetchSettled 2 (Sample.found [Sample.hit "x"] 1)])
    = [Item (Sample.hit "b"); Placeholder; Item (Sample.hit "x")]
  ∧ images (run s [FetchSettled 2 (Sample.found [Sample.hit "x"] 1);
                   FetchSettled 1 (Sample.found [] 0)])
    = [Item (Sample.hit "b"); Item (Sample.hit "x"); Item (Sample.hit "d")]
  ∧ images (run s [FetchSettled 1 (Sample.found [Sample.hit "x"] 1);
                   FetchSettled 2 (Sample.found [Sample.hit "x"] 1)])
    = [Item (Sample.hit "x"); Item (Sample.hit "b");
       Item (Sample.hit "x"); Item (Sample.hit "d")].
Proof. cbv zeta. split_and!; reflexivity. Qed.

(** C3.  A removal at a valid index [i], followed through its three stages
    with nothing else happening in between.  While the animation plays the
    grid is untouched and [i] is flagged.  When the timer expires, slot [i]
    holds a placeholder, the total is one less unless it was not positive
    (so it never goes below zero), and exactly one request has gone out: for
    the current query, at the page the cursor points to, with [per_page=1].
    When that fetch settles no further request is made; if it delivered an
    item, the item is in slot [i] and the cursor is one further; if it came
    back empty or failed, slot [i] is gone, the grid is one shorter and the
    cursor has not moved; either way the placeholder has not stayed. *)
Theorem removal_backfills_slot (s : State) (i : Z) (o : FetchOutcome) :
  0 ≤ i < Z.of_nat (length (images s)) →
  let tid := next_task s in
  let s1 := removeImageAt i s in
  let s2 := step s1 (TimerFired tid) in
  let s3 := step s2 (FetchSettled tid o) in
  (images s1 = images s ∧ total s1 = total s ∧ i ∈ removingIndexes s1
   ∧ requests s1 = requests s)
  ∧ (images s2 = <[Z.to_nat i := Placeholder]> (images s)
     ∧ total s2 = (if 0 <? total s then total s - 1 else total s)
     ∧ (0 ≤ total s → total s2 = Z.max 0 (total s - 1)))
  ∧ (requests s2 = requests s ++ [mkReq (searchQuery s) (nextFetchPage s) 1]
     ∧ requests s3 = requests s2 ∧ total s3 = total s2)
  ∧ (∀ item, delivers o item →
       images s3 = <[Z.to_nat i := Item item]> (images s)
       ∧ nextFetchPage s3 = nextFetchPage s + 1)
  ∧ ((∀ item, ¬ delivers o item) →
       images s3 = delete (Z.to_nat i) (images s)
       ∧ length (images s3) = (length (images s) - 1)%nat
       ∧ nextFetchPage s3 = nextFetchPage s)
  ∧ (Placeholder ∉ images s → Placeholder ∉ images s3).
Proof.
  intros Hi tid s1 s2 s3.
  assert (Hs1 : s1 = park (RemovalDelay i)
                  (set_removingIndexes ({[i]} ∪ removingIndexes s) s))
    by (apply removeImageAt_in_range; done).
  assert (Hs2 : s2 = removeImageAt_settled tid i s1).
  { unfold s2, step. rewrite Hs1. simpl. by rewrite lookup_insert_eq. }
  destruct (removeImageAt_settled_fields tid i s1)
    as (Himg2 & Htot2 & Hreq2 & Htasks2 & _).
  rewrite <- Hs2 in Himg2, Htot2, Hreq2, Htasks2.
  rewrite Hs1 in Himg2, Htot2, Hreq2, Htasks2. simpl in Himg2, Htot2, Hreq2.
  rewrite splice_replace in Himg2 by done.
  assert (Hs3 : s3 = removeImageAt_resume i (nextFetchPage s) o
                       (finish tid s2)).
  { unfold s3, step. rewrite Htasks2. by rewrite lookup_insert_eq. }
  assert (Hlen2 : length (images (finish tid s2)) = length (images s))
    by (simpl; rewrite Himg2; apply length_insert).
  assert (Hcur2 : nextFetchPage (finish tid s2) = nextFetchPage s).
  { change (nextFetchPage (finish tid s2)) with (nextFetchPage s2).
    by rewrite Hs2, nextFetchPage_settled, Hs1. }
  destruct (resume_frame i (nextFetchPage s) o (finish tid s2))
    as [Hreq3 Htot3].
  rewrite <- Hs3 in Hreq3, Htot3.
  assert (Hdel : ∀ item, delivers o item →
            images s3 = <[Z.to_nat i := Item item]> (images s)
            ∧ nextFetchPage s3 = nextFetchPage s + 1).
  { intros item Hd. rewrite Hs3.
    destruct (resume_delivers i (nextFetchPage s) o item (finish tid s2) Hd)
      as [-> ->]. split; [ | done].
    rewrite splice_replace by lia. simpl. rewrite Himg2.
    apply list_insert_insert_eq. }
  assert (Hfail : (∀ item, ¬ delivers o item) →
            images s3 = delete (Z.to_nat i) (images s)
            ∧ nextFetchPage s3 = nextFetchPage s).
  { intros Hno. rewrite Hs3.
    destruct (resume_fails i (nextFetchPage s) o (finish tid s2) Hno)
      as [-> ->]. split; [ | done].
    rewrite splice_delete by lia. simpl. rewrite Himg2, !delete_take_drop.
    rewrite take_insert_ge by lia. rewrite drop_insert_lt by lia. done. }
  split_and!.
  - by rewrite Hs1.
  - by rewrite Hs1.
  - rewrite Hs1. simpl. apply elem_of_union_l. by apply elem_of_singleton.
  - by rewrite Hs1.
  - exact Himg2.
  - exact Htot2.
  - intros Ht. rewrite Htot2. destruct (0 <? total s) eqn:E; lia.
  - exact Hreq2.
  - exact Hreq3.
  - exact Htot3.
  - exact Hdel.
  - intros Hno. destruct (Hfail Hno) as [Himg Hcur].
    split_and!; [done | | done].
    rewrite Himg, length_delete; [done | ].
    apply lookup_lt_is_Some. lia.
  - intros Hnp Hin.
    destruct (delivers_dec o) as [[item Hd] | Hno].
    + destruct (Hdel item Hd) as [Himg _]. rewrite Himg in Hin.
      apply list_elem_of_lookup in Hin as [k Hk].
      destruct (decide (k = Z.to_nat i)) as [-> | Hne].
      * rewrite list_lookup_insert_eq in Hk by lia. done.
      * rewrite list_lookup_insert_ne in Hk by done.
        apply Hnp. apply list_elem_of_lookup. eauto.
    + destruct (Hfail Hno) as [Himg _].
      rewrite Himg in Hin. apply Hnp.
      by apply (list_subseteq_delete (Z.to_nat i)).
Qed.

(** The end-to-end example of the specification: "cat", page 1, fifty
    items, total 1000; cell 0 is removed and refilled from the overflow
    page 2, and the cursor goes to 3. *)
Lemma removal_backfills_slot_witness :
  let s := run (mount Sample.cat 1)
             [FetchSettled 0 (Sample.found Sample.full_page 1000)] in
  let o := Sample.found [Sample.hit "x"] 1000 in
  let s2 := step (removeImageAt 0 s) (TimerFired (next_task s)) in
  let s3 := step s2 (FetchSettled (next_task s) o) in
  (0 ≤ 0 < Z.of_nat (length (images s)))
  ∧ length (images s) = 50%nat ∧ nextFetchPage s = 2
  ∧ images s2 = <[0%nat := Placeholder]> (images s) ∧ total s2 = 999
  ∧ images s3 = <[0%nat := Item (Sample.hit "x")]> (images s)
  ∧ nextFetchPage s3 = 3.
Proof.
  intros s o s2 s3.
  assert (Hi : 0 ≤ 0 < Z.of_nat (length (images s))) by (vm_compute; done).
  destruct (removal_backfills_slot s 0 o Hi)
    as (_ & (Himg2 & Htot2 & _) & _ & Hdel & _).
  assert (Hd : delivers o (Sample.hit "x")).
  { exists 200, (mkData (Some [Sample.hit "x"]) (Some 1000) None), [].
    split_and!; reflexivity. }
  destruct (Hdel _ Hd) as [Himg3 Hcur3].
  split; [exact Hi | ].
  split_and!; [reflexivity | reflexivity | exact Himg2
              | etrans; [exact Htot2 | reflexivity] | exact Himg3
              | etrans; [exact Hcur3 | reflexivity]].
Defined.

(* ===================================================================== *)
(** ** The overflow cursor *)
(* ===================================================================== *)




(* ===================================================================== *)
(** ** Navigation *)
(* ===================================================================== *)

(** C7, counterexample.  Page 1 of "cat" came back with a full page of fifty
    items.  One image is removed and the overflow has nothing to replace it
    with, so the grid is left with 49 images: the forward button is disabled
    although the page on display returned no fewer than fifty items. *)
Lemma forward_disabled_although_page_was_full :
  let s0 := run (mount Sample.cat 1)
              [FetchSettled 0 (Sample.found Sample.full_page 1000)] in
  let s := run s0 [DblClick 0; TimerFired 1;
                   FetchSettled 1 (Sample.found [] 1000)] in
  length Sample.full_page = 50%nat
  ∧ images s0 = Item <$> Sample.full_page ∧ next_disabled s0 = false
  ∧ searchQuery s = Sample.cat ∧ page s = 1 ∧ view s = ShowGrid
  ∧ length (images s) = 49%nat
  ∧ next_disabled s = true
  ∧ ¬ (next_disabled s = true ↔ (length Sample.full_page < 50)%nat).
Proof.
  cbv zeta. split_and!; try reflexivity.
  intros [H _]. specialize (H eq_refl). vm_compute in H. lia.
Qed.

(** C7, as the code has it.  At page 10 or beyond [nextPage] emits nothing
    and a click on the forward button changes nothing; at page 1 or below
    the same holds of [prevPage] and the backward button; so a page within
    [1, 10] stays there under both buttons.  The forward button is disabled
    exactly when the grid holds fewer than fifty slots; just after a
    page-level fetch has succeeded that is exactly when the page returned
    fewer than fifty items. *)
Theorem navigation_bounds (s : State) :
  (10 ≤ page s → nextPage s = None ∧ step s ClickNext = s)
  ∧ (page s ≤ 1 → prevPage s = None ∧ step s ClickPrev = s)
  ∧ (1 ≤ page s ≤ 10 →
       1 ≤ page (step s ClickNext) ≤ 10 ∧ 1 ≤ page (step s ClickPrev) ≤ 10)
  ∧ (next_disabled s = true ↔ (length (images s) < 50)%nat)
  ∧ (∀ tid req o data,
       tasks s !! tid = Some (PageFetch req) → succeeds o data →
       next_disabled (step s (FetchSettled tid o)) = true
       ↔ (length (default [] (d_results data)) < 50)%nat).
Proof.
  split_and!.
  - intros Hp. assert (Hn : nextPage s = None).
    { unfold nextPage. destruct (page s <? 10) eqn:E; [lia | done]. }
    split; [done | ]. simpl. rewrite Hn. simpl.
    destruct (view s); try done. by destruct (next_disabled s).
  - intros Hp. assert (Hn : prevPage s = None).
    { unfold prevPage. destruct (1 <? page s) eqn:E; [lia | done]. }
    split; [done | ]. simpl. rewrite Hn. simpl.
    destruct (view s); try done. by destruct (prev_disabled s).
  - intros Hp. destruct (page_click_next s) as [-> | [? ->]];
      destruct (page_click_prev s) as [-> | [? ->]]; lia.
  - unfold next_disabled, perPage. rewrite Z.ltb_lt. lia.
  - intros tid req o data Ht Hs.
    rewrite (step_page_fetch_succeeds s tid req o data Ht Hs).
    unfold next_disabled, perPage. simpl. rewrite Z.ltb_lt, length_fmap. lia.
Qed.

Lemma navigation_bounds_witness :
  let s := run (mount Sample.cat 10)
             [FetchSettled 0 (Sample.found Sample.full_page 1000)] in
  10 ≤ page s ∧ view s = ShowGrid ∧ next_disabled s = false
  ∧ nextPage s = None ∧ step s ClickNext = s.
Proof.
  intros s. split_and!; [done | done | done | | ];
    apply (navigation_bounds s); done.
Defined.

(* ===================================================================== *)
(** ** The empty query *)
(* ===================================================================== *)

(** C8.  In every state, [fetchImages] with an empty query empties the grid
    and sends nothing: the request log is as it was and no call is parked
    waiting for a response. *)
Theorem empty_query_clears_without_fetch (s : State) :
  searchQuery s = [] →
  images (fetchImages s) = []
  ∧ requests (fetchImages s) = requests s
  ∧ tasks (fetchImages s) = tasks s.
Proof. intros Hq. unfold fetchImages. rewrite Hq. done. Qed.

Lemma empty_query_clears_without_fetch_witness :
  let s := run (mount Sample.cat 1)
             [FetchSettled 0 (Sample.found [Sample.hit "a"] 1)] in
  let s' := step s (PropsChanged [] 1) in
  images s = [Item (Sample.hit "a")]
  ∧ s' = fetchImages (set_props [] 1 s)
  ∧ images s' = [] ∧ requests s' = requests s ∧ tasks s' = tasks s.
Proof.
  intros s s'. split_and!; [reflexivity | reflexivity | | | ];
    apply (empty_query_clears_without_fetch (set_props [] 1 s)); reflexivity.
Defined.

(* ===================================================================== *)
(** ** The center crop *)
(* ===================================================================== *)

(** C5.  For a source that loads with natural dimensions [w] x [h], the
    transcoder draws, on a 50 x 50 canvas, the square of side [min w h]
    whose corner is at [floor((w - side) / 2), floor((h - side) / 2)], and
    encodes that canvas as JPEG at quality 0.85.  For 800 x 600 the side is
    600 and the corner is at (100, 0). *)
Theorem center_crop_parameters
    (loadImage : jsstring → option ImageEl)
    (toBlob : Canvas → jsstring → Q → option Blob)
    (img : Slot) (imageEl : ImageEl) :
  loadImage (url_of img) = Some imageEl →
  let w := naturalWidth imageEl in
  let h := naturalHeight imageEl in
  let '(side, sx, sy) := centered_square w h in
  side = Z.min w h ∧ sx = (w - side) / 2 ∧ sy = (h - side) / 2
  ∧ draw_center_cropped imageEl
    = mkCanvas 50 50 [mkDraw imageEl sx sy side side 0 0 50 50]
  ∧ transcode loadImage toBlob img
    = toBlob (mkCanvas 50 50 [mkDraw imageEl sx sy side side 0 0 50 50])
             (lit "image/jpeg") (85 # 100)%Q
  ∧ (w = 800 → h = 600 → (side, sx, sy) = (600, 100, 0)).
Proof.
  intros Hload w h. unfold centered_square.
  assert (H : draw_center_cropped imageEl
              = mkCanvas 50 50
                  [mkDraw imageEl ((w - Z.min w h) / 2) ((h - Z.min w h) / 2)
                          (Z.min w h) (Z.min w h) 0 0 50 50]).
  { unfold draw_center_cropped. rewrite !Qfloor_half. reflexivity. }
  split_and!; try done.
  - unfold transcode, canvasToBlob. rewrite Hload, H. reflexivity.
  - intros Hw Hh. rewrite Hw, Hh. reflexivity.
Qed.

Lemma center_crop_parameters_witness :
  let imageEl := mkImage (lit "https://img.example/a") 800 600 in
  let crop := mkDraw imageEl 100 0 600 600 0 0 50 50 in
  Sample.loads_all_but [] (url_of (Item (Sample.hit "a"))) = Some imageEl
  ∧ centered_square 800 600 = (600, 100, 0)
  ∧ drawn (draw_center_cropped imageEl) = [crop]
  ∧ transcode (Sample.loads_all_but []) Sample.encodes (Item (Sample.hit "a"))
    = Some (mkBlob (lit "image/jpeg") []).
Proof.
  intros imageEl crop.
  assert (Hload : Sample.loads_all_but [] (url_of (Item (Sample.hit "a")))
                  = Some imageEl) by reflexivity.
  pose proof (center_crop_parameters (Sample.loads_all_but []) Sample.encodes
                (Item (Sample.hit "a")) imageEl Hload) as H.
  cbv zeta in H. change (centered_square (naturalWidth imageEl)
                           (naturalHeight imageEl))
    with (600, 100, 0) in H.
  destruct H as (_ & _ & _ & Hdraw & Htrans & _).
  split_and!; [exact Hload | reflexivity | by rewrite Hdraw
              | by rewrite Htrans].
Defined.

(* ===================================================================== *)
(** ** The export *)
(* ===================================================================== *)

(** Writing entries of distinct fresh names adds as many files. *)
Lemma foldl_write_size (es : list (jsstring * Blob))
    (zip : gmap jsstring Blob) :
  NoDup es.*1 → (∀ e, e ∈ es → zip !! e.1 = None) →
  size (foldl write zip es) = (size zip + length es)%nat.
Proof.
  revert zip. induction es as [ | e es IH]; intros zip Hnd Hfresh; simpl;
    [lia | ].
  apply NoDup_cons in Hnd as [Hne Hnd].
  rewrite IH; [ | done | ].
  - unfold write. rewrite map_size_insert_None; [lia | ].
    apply Hfresh, elem_of_cons. by left.
  - intros e' He'. unfold write. rewrite lookup_insert_ne.
    + apply Hfresh, elem_of_cons. by right.
    + intros Heq. apply Hne. rewrite Heq. by apply list_elem_of_fmap_2.
Qed.

(** ... and the files are those that were there and those written. *)
Lemma foldl_write_lookup (es : list (jsstring * Blob))
    (zip : gmap jsstring Blob) (name : jsstring) (b : Blob) :
  NoDup es.*1 → (∀ e, e ∈ es → zip !! e.1 = None) →
  foldl write zip es !! name = Some b
  ↔ (name, b) ∈ es ∨ zip !! name = Some b.
Proof.
  revert zip. induction es as [ | e es IH]; intros zip Hnd Hfresh; simpl.
  - split; [by right | intros [?%elem_of_nil | ?]; done].
  - destruct e as [k v]. apply NoDup_cons in Hnd as [Hne Hnd].
    assert (Hfresh' : ∀ e', e' ∈ es → write zip (k, v) !! e'.1 = None).
    { intros e' He'. unfold write. rewrite lookup_insert_ne.
      - apply Hfresh, elem_of_cons. by right.
      - intros Heq. apply Hne. simpl in *. rewrite Heq.
        by apply list_elem_of_fmap_2. }
    rewrite (IH _ Hnd Hfresh'). unfold write. rewrite elem_of_cons. simpl.
    assert (Hz : zip !! k = None)
      by (apply (Hfresh (k, v)), elem_of_cons; by left).
    destruct (decide (k = name)) as [<- | Hn].
    + rewrite lookup_insert_eq, Hz. split.
      * intros [Hin | [= <-]]; [left; by right | left; by left].
      * intros [[[= ->] | Hin] | ?]; [by right | by left | done].
    + rewrite lookup_insert_ne by done. split.
      * intros [? | ?]; [left; by right | by right].
      * intros [[[= -> _] | ?] | ?]; [done | by left | by right].
Qed.

Section Export_facts.

Variable loadImage : jsstring → option ImageEl.
Variable toBlob : Canvas → jsstring → Q → option Blob.
Variable folderName : jsstring.
Variable p : Z.

Lemma process_shift (i n idx : nat) (img : Slot) :
  process loadImage toBlob i (n + idx)%nat img
  = process loadImage toBlob (i + n) idx img.
Proof. unfold process. by rewrite Nat.add_assoc. Qed.

(** Batching does not change what the loop does, and the loop ends because
    its counter passes the last image, not because the fuel runs out: with
    fuel for the images that are left, it visits each of them once, in
    display order, under its own index. *)
Lemma batch_loop_unbatched (imgs : list Slot) (fuel i : nat)
    (zip : gmap jsstring Blob) :
  (length imgs - i ≤ fuel)%nat →
  batch_loop loadImage toBlob fuel imgs folderName p i zip
  = foldl (add_result folderName p) zip
          (imap (process loadImage toBlob i) (drop i imgs)).
Proof.
  revert i zip. induction fuel as [ | fuel IH]; intros i zip Hfuel; simpl.
  - rewrite drop_ge by lia. done.
  - case_bool_decide as Hi.
    + rewrite IH by (unfold concurrency; lia).
      rewrite slice_batch by done.
      rewrite <- (take_drop concurrency (drop i imgs)) at 2.
      rewrite imap_app, foldl_app, drop_drop. f_equal.
      destruct (decide (i + concurrency ≤ length imgs)%nat) as [Hle | Hgt].
      * apply imap_ext. intros idx img _. simpl.
        rewrite length_take, length_drop.
        replace (concurrency `min` (length imgs - i))%nat with concurrency
          by lia.
        by rewrite process_shift.
      * rewrite !drop_ge by lia. done.
    + rewrite drop_ge by lia. done.
Qed.

Lemma foldl_add_result (imgs : list Slot) (i : nat)
    (zip : gmap jsstring Blob) :
  foldl (add_result folderName p) zip (imap (process loadImage toBlob i) imgs)
  = foldl write zip (entries_from loadImage toBlob folderName p i imgs).
Proof.
  revert i zip. induction imgs as [ | img rest IH]; intros i zip; [done | ].
  simpl. rewrite (imap_ext _ (process loadImage toBlob (S i))).
  2:{ intros idx x _. simpl. rewrite (process_shift i 1 idx).
      f_equal. lia. }
  rewrite IH. unfold process at 1, add_result. rewrite Nat.add_0_r.
  by destruct (transcode loadImage toBlob img).
Qed.

Lemma entries_from_index (i : nat) (imgs : list Slot) (name : jsstring)
    (b : Blob) :
  (name, b) ∈ entries_from loadImage toBlob folderName p i imgs ↔
  ∃ idx img,
    imgs !! idx = Some img ∧ transcode loadImage toBlob img = Some b
    ∧ name = entry_name folderName p (i + idx) (ext_of (Some (type b))).
Proof.
  revert i. induction imgs as [ | img rest IH]; intros i; simpl.
  - split; [by intros ?%elem_of_nil | by intros (? & ? & ? & _)].
  - split.
    + intros Hin. destruct (transcode loadImage toBlob img) as [b0 | ] eqn:Ht.
      * apply elem_of_cons in Hin as [[= -> ->] | Hin].
        -- exists 0%nat, img. by rewrite Nat.add_0_r.
        -- apply IH in Hin as (idx & x & ? & ? & ->).
           exists (S idx), x. split_and!; [done | done | f_equal; lia].
      * apply IH in Hin as (idx & x & ? & ? & ->).
        exists (S idx), x. split_and!; [done | done | f_equal; lia].
    + intros ([ | idx] & x & Hl & Hb & ->); simpl in Hl.
      * injection Hl as ->. rewrite Hb, Nat.add_0_r.
        apply elem_of_cons. by left.
      * assert ((entry_name folderName p (i + S idx)
                   (ext_of (Some (type b))), b)
                ∈ entries_from loadImage toBlob folderName p (S i) rest)
          as Hin.
        { apply IH. exists idx, x. split_and!; [done | done | f_equal; lia]. }
        destruct (transcode loadImage toBlob img);
          [apply elem_of_cons; by right | done].
Qed.

Lemma entries_from_NoDup (i : nat) (imgs : list Slot) :
  NoDup (entries_from loadImage toBlob folderName p i imgs).*1.
Proof.
  revert i. induction imgs as [ | img rest IH]; intros i; simpl;
    [apply NoDup_nil_2 | ].
  destruct (transcode loadImage toBlob img) as [b | ]; [ | apply IH].
  simpl. apply NoDup_cons. split; [ | apply IH].
  intros Hin. apply list_elem_of_fmap in Hin as ([name b'] & Hname & Hin).
  simpl in Hname. apply entries_from_index in Hin as (idx & _ & _ & _ & ->).
  apply entry_name_inj in Hname. lia.
Qed.

Lemma entries_from_length (i : nat) (imgs : list Slot) :
  length (entries_from loadImage toBlob folderName p i imgs)
  = length (filter (λ img, is_Some (transcode loadImage toBlob img)) imgs).
Proof.
  revert i. induction imgs as [ | img rest IH]; intros i; [done | ].
  simpl. rewrite filter_cons.
  destruct (transcode loadImage toBlob img) eqn:E.
  - rewrite decide_True by eauto. simpl. by rewrite IH.
  - rewrite decide_False by (by intros [? ?]). apply IH.
Qed.

End Export_facts.

Section Export_theorems.

Variable loadImage : jsstring → option ImageEl.
Variable toBlob : Canvas → jsstring → Q → option Blob.


(** On a non-empty grid the export always ends with a file: the loop has
    fuel for every image, and its result is the entries written in order. *)
Lemma downloadZip_nonempty (s : State) :
  images s ≠ [] →
  downloadZip loadImage toBlob s
  = (set_error None s,
     Some (mkDownload
             (folderName_of (searchQuery s) (page s) ++ lit ".zip")
             (foldl write ∅
                (entries_from loadImage toBlob
                   (folderName_of (searchQuery s) (page s)) (page s)
                   0 (images s))))).
Proof.
  intros H. unfold downloadZip.
  rewrite bool_decide_eq_false_2 by (by destruct (images s)).
  simpl. rewrite batch_loop_unbatched by lia.
  by rewrite drop_0, foldl_add_result.
Qed.

(** The archive has one file per image that transcodes. *)
Lemma downloadZip_size (s : State) :
  images s ≠ [] →
  ∃ d, (downloadZip loadImage toBlob s).2 = Some d
       ∧ size (files d)
         = length (filter (λ img, is_Some (transcode loadImage toBlob img))
                          (images s)).
Proof.
  intros Hne. rewrite downloadZip_nonempty by done.
  eexists. split; [reflexivity | ]. cbn [files].
  rewrite foldl_write_size.
  - by rewrite map_size_empty, entries_from_length.
  - apply entries_from_NoDup.
  - intros e _. apply lookup_empty.
Qed.





(** C9.  On a non-empty grid the export saves a file named
    [images_<q'>_page<N>.zip], where [q'] is the query with every run of
    whitespace collapsed to one underscore and [N] the page.  Its files are
    exactly these: for each position [idx] of the grid whose image
    transcodes to a blob [b], the file
    [images_<q'>_page<N>/image_<N>_<idx+1>.<ext>] holding [b], where [ext]
    comes from the type of [b].  For a type [major/minor] with a non-empty
    [minor] the extension is [minor]; for a type without a slash (the empty
    type among them) or with nothing after it, the extension is [jpg]. *)
Theorem export_names (s : State) :
  images s ≠ [] →
  let folder :=
    lit "images_" ++ collapse_whitespace_runs (searchQuery s)
      ++ lit "_page" ++ dec (page s) in
  ∃ d, (downloadZip loadImage toBlob s).2 = Some d
    ∧ download d = folder ++ lit ".zip"
    ∧ (∀ name b,
         files d !! name = Some b ↔
         ∃ idx img,
           images s !! idx = Some img
           ∧ transcode loadImage toBlob img = Some b
           ∧ name = folder ++ lit "/image_" ++ dec (page s) ++ lit "_"
                      ++ dec (Z.of_nat idx + 1) ++ lit "."
                      ++ ext_of (Some (type b)))
    ∧ (∀ major minor, slash ∉ major → slash ∉ minor → minor ≠ [] →
         ext_of (Some (major ++ slash :: minor)) = minor)
    ∧ (∀ m, slash ∉ m ∨ (∃ major, m = major ++ [slash] ∧ slash ∉ major) →
         ext_of (Some m) = lit "jpg").
Proof.
  intros Hne folder. rewrite downloadZip_nonempty by done.
  assert (Hf : folderName_of (searchQuery s) (page s) = folder).
  { unfold folderName_of, folder. by rewrite replace_spaces_collapses. }
  rewrite Hf. eexists. split; [reflexivity | ]. cbn [download files].
  split_and!.
  - done.
  - intros name b. rewrite foldl_write_lookup.
    + rewrite lookup_empty, entries_from_index. unfold entry_name.
      cbn [Nat.add]. split.
      * intros [H | ?]; [ | done]. exact H.
      * intros H. by left.
    + apply entries_from_NoDup.
    + intros e _. apply lookup_empty.
  - intros major minor Hmaj Hmin Hnil. rewrite ext_of_subtype by done.
    by destruct minor.
  - intros m [Hm | (major & -> & Hmaj)].
    + by apply ext_of_no_subtype.
    + rewrite ext_of_subtype; [done | done | apply not_elem_of_nil].
Qed.

End Export_theorems.



Lemma export_names_witness :
  let s := run (mount (lit "big  cat") 3)
             [FetchSettled 0
                (Sample.found [Sample.hit "a"; Sample.hit "b"] 2)] in
  let load := Sample.loads_all_but [download_url (Sample.hit "a")] in
  images s ≠ []
  ∧ ∃ d, (downloadZip load Sample.encodes s).2 = Some d
         ∧ download d = lit "images_big_cat_page3.zip"
         ∧ files d !! lit "images_big_cat_page3/image_3_2.jpeg"
           = Some (mkBlob (lit "image/jpeg") [])
         ∧ files d !! lit "images_big_cat_page3/image_3_1.jpeg" = None.
Proof.
  intros s load.
  assert (Hne : images s ≠ []) by done.
  split; [exact Hne | ].
  destruct (export_names load Sample.encodes s Hne)
    as (d & Hd & Hname & Hfiles & _).
  exists d. split_and!; [exact Hd | exact Hname | | ].
  - apply Hfiles. exists 1%nat, (Item (Sample.hit "b")).
    split_and!; reflexivity.
  - destruct (files d !! lit "images_big_cat_page3/image_3_1.jpeg")
      as [b | ] eqn:E; [ | done].
    apply Hfiles in E as (idx & img & Himg & Ht & Hn).
    destruct idx as [ | [ | idx]]; vm_compute in Himg;
      [ | | done]; injection Himg as <-; vm_compute in Ht, Hn; done.
Defined.

(* ===================================================================== *)
(** ** Reachable states *)
(* ===================================================================== *)

Lemma logged_mono (s s' : State) (t : Task) :
  requests s ⊆ requests s' → logged s t → logged s' t.
Proof.
  intros Hsub. destruct t as [req | i | i fp req]; simpl; [ | done | ];
    intros [? ?]; auto.
Qed.

Lemma consistent_setup (q : jsstring) (p : Z) : consistent (setup q p).
Proof. split; simpl; done. Qed.

(** Updates that leave the parked calls, the log, the flag and the error
    alone keep the state consistent. *)
Lemma consistent_frame (s s' : State) :
  tasks s' = tasks s → next_task s' = next_task s →
  requests s' = requests s → loading s' = loading s → error s' = error s →
  consistent s → consistent s'.
Proof.
  intros Ht Hn Hr Hl He [Hfresh Hload Herr Hlog Hpark].
  split; rewrite ?Ht, ?Hn, ?Hr, ?Hl, ?He; try done.
  intros tid t H. apply (logged_mono s); [by rewrite Hr | by apply (Hpark tid)].
Qed.

(** A call parked under a fresh id. *)
Lemma consistent_park (t : Task) (s : State) :
  consistent s → logged s t → consistent (park t s).
Proof.
  intros [Hfresh Hload Herr Hlog Hpark] Ht. split; simpl; try done.
  - intros tid t'. destruct (decide (tid = next_task s)) as [-> | Hne].
    + intros _. lia.
    + rewrite lookup_insert_ne by done. intros H%Hfresh. lia.
  - intros Hl. destruct (Hload Hl) as (tid & req & Htid).
    exists tid, req. rewrite lookup_insert_ne; [done | ].
    apply Hfresh in Htid. lia.
  - intros tid t'. destruct (decide (tid = next_task s)) as [-> | Hne].
    + rewrite lookup_insert_eq. by intros [= <-].
    + rewrite lookup_insert_ne by done. apply Hpark.
Qed.

(** A request goes out. *)
Lemma consistent_send (r : Request) (s : State) :
  consistent s → well_formed_request r → consistent (send r s).
Proof.
  intros [Hfresh Hload Herr Hlog Hpark] Hr. split; simpl; try done.
  - apply Forall_app. split; [done | by apply Forall_singleton].
  - intros tid t H. apply (logged_mono s); [ | by apply (Hpark tid)].
    simpl. intros x Hx. apply elem_of_app. by left.
Qed.

Lemma consistent_fetchImages (s : State) :
  consistent s → consistent (fetchImages s).
Proof.
  intros Hs. unfold fetchImages.
  destruct (truthy (searchQuery s)) eqn:Hq;
    [ | by apply (consistent_frame s)].
  set (req := mkReq _ _ _).
  assert (H1 : consistent (send req (set_loading false (set_error None s)))).
  { apply consistent_send; [ | by left].
    destruct Hs as [Hfresh Hload Herr Hlog Hpark]. by split. }
  destruct (consistent_park (PageFetch req) _ H1) as [Hfresh _ Herr Hlog Hpark].
  { simpl. split; [ | done].
    apply elem_of_app. right. by apply list_elem_of_singleton. }
  split; try done. intros _. exists (next_task s), req. simpl.
  apply lookup_insert_eq.
Qed.

Lemma consistent_update_props (q : jsstring) (p : Z) (s : State) :
  consistent s → consistent (update_props q p s).
Proof.
  intros H. unfold update_props. case_bool_decide; [done | ].
  apply consistent_fetchImages. by apply (consistent_frame s).
Qed.

Lemma consistent_removeImageAt (i : Z) (s : State) :
  consistent s → consistent (removeImageAt i s).
Proof.
  intros Hs. unfold removeImageAt. destruct (_ || _); [done | ].
  apply consistent_park; [ | done]. by apply (consistent_frame s).
Qed.

Lemma consistent_settled (tid : nat) (i : Z) (s : State) :
  consistent s → tasks s !! tid = Some (RemovalDelay i) →
  consistent (removeImageAt_settled tid i s).
Proof.
  intros Hs Ht. unfold removeImageAt_settled.
  set (s2 := if 0 <? _ then _ else _).
  assert (H2 : consistent s2 ∧ tasks s2 = tasks s ∧ next_task s2 = next_task s).
  { unfold s2. simpl. destruct (0 <? total s); (split; [ | done]);
      by apply (consistent_frame s). }
  destruct H2 as (H2 & Ht2 & Hn2).
  set (req := mkReq _ _ _).
  destruct (consistent_send req s2 H2) as [Hfresh Hload Herr Hlog Hpark];
    [by right | ].
  simpl in *. split; simpl; try done.
  - intros tid' t. destruct (decide (tid' = tid)) as [-> | Hne].
    + intros _. apply (Hfresh tid (RemovalDelay i)). by rewrite Ht2.
    + rewrite lookup_insert_ne by done. apply Hfresh.
  - intros Hl. destruct (Hload Hl) as (tid' & r & Ht').
    exists tid', r. rewrite lookup_insert_ne; [done | ].
    rewrite Ht2 in Ht'. congruence.
  - intros tid' t. destruct (decide (tid' = tid)) as [-> | Hne].
    + rewrite lookup_insert_eq. intros [= <-]. simpl. split; [ | done].
      apply elem_of_app. right. by apply list_elem_of_singleton.
    + rewrite lookup_insert_ne by done. apply Hpark.
Qed.

(** A settlement: the call leaves the table; the flag goes off, or stays
    as it is when the call was no page fetch; the error stays or becomes a
    non-empty message. *)
Lemma consistent_settle (tid : nat) (s s' : State) :
  consistent s →
  tasks s' = delete tid (tasks s) → next_task s' = next_task s →
  requests s' = requests s →
  (loading s' = false
   ∨ (loading s' = loading s ∧ ∀ req, tasks s !! tid ≠ Some (PageFetch req))) →
  (error s' = error s ∨ ∃ m, error s' = Some m ∧ truthy m = true) →
  consistent s'.
Proof.
  intros [Hfresh Hload Herr Hlog Hpark] Ht Hn Hr Hl He.
  split; rewrite ?Ht, ?Hn, ?Hr.
  - intros tid' t H. apply lookup_delete_Some in H as [_ H]. eauto.
  - intros Hl'. destruct Hl as [Hl | [Hl Hno]]; [congruence | ].
    rewrite Hl in Hl'. destruct (Hload Hl') as (tid' & req & Ht').
    exists tid', req. rewrite lookup_delete_ne; [done | ].
    intros ->. by apply (Hno req).
  - intros m Hm. destruct He as [He | (m' & He & Hm')].
    + apply Herr. by rewrite <- He.
    + congruence.
  - done.
  - intros tid' t H. apply lookup_delete_Some in H as [_ H].
    apply (logged_mono s); [by rewrite Hr | eauto].
Qed.

Lemma or_else_truthy (a b : jsstring) :
  truthy b = true → truthy (or_else a b) = true.
Proof. intros Hb. unfold or_else. by destruct (truthy a) eqn:Ha. Qed.

Lemma consistent_fetchImages_resume (tid : nat) (o : FetchOutcome) (s : State) :
  consistent s → consistent (fetchImages_resume o (finish tid s)).
Proof.
  intros Hs. apply (consistent_settle tid s); try done;
    unfold fetchImages_resume; destruct (fetchImages_try o); simpl; auto.
  right. eexists. split; [done | ]. by apply or_else_truthy.
Qed.

Lemma consistent_removeImageAt_resume (tid : nat) (i fp : Z) (req : Request)
    (o : FetchOutcome) (s : State) :
  consistent s → tasks s !! tid = Some (ReplacementFetch i fp req) →
  consistent (removeImageAt_resume i fp o (finish tid s)).
Proof.
  intros Hs Ht.
  assert (H : ∀ s0 : State,
            let s' := removeImageAt_resume i fp o s0 in
            tasks s' = tasks s0 ∧ next_task s' = next_task s0
            ∧ requests s' = requests s0 ∧ loading s' = loading s0
            ∧ error s' = error s0).
  { intros s0. unfold removeImageAt_resume.
    destruct o as [m | status [data | m]]; simpl; try done;
      destruct (ok status); simpl; try done.
    by destruct (first_result data). }
  destruct (H (finish tid s)) as (H1 & H2 & H3 & H4 & H5).
  apply (consistent_settle tid s); try done.
  - right. split; [done | ]. intros r. congruence.
  - by left.
Qed.

Lemma consistent_step (s : State) (e : Event) :
  consistent s → consistent (step s e).
Proof.
  intros Hs. destruct e as [q p | | | idx | tid | tid o]; simpl.
  - by apply consistent_update_props.
  - destruct (view s); try done. destruct (next_disabled s); [done | ].
    destruct (nextPage s); [by apply consistent_update_props | done].
  - destruct (view s); try done. destruct (prev_disabled s); [done | ].
    destruct (prevPage s); [by apply consistent_update_props | done].
  - destruct (view s); try done.
    destruct (images s !! idx) as [[it | ] | ]; try done.
    by apply consistent_removeImageAt.
  - destruct (tasks s !! tid) as [[req | i | i fp req] | ] eqn:Ht; try done.
    by apply consistent_settled.
  - destruct (tasks s !! tid) as [[req | i | i fp req] | ] eqn:Ht; try done.
    + by apply consistent_fetchImages_resume.
    + by apply (consistent_removeImageAt_resume tid i fp req).
Qed.

Lemma consistent_run (evs : list Event) (s : State) :
  consistent s → consistent (run s evs).
Proof.
  revert s. induction evs as [ | e evs IH]; intros s Hs; [done | ].
  simpl. by apply IH, consistent_step.
Qed.

Lemma reachable_consistent (s : State) : reachable s → consistent s.
Proof.
  intros (q & p & evs & ->). apply consistent_run. unfold mount.
  apply consistent_fetchImages, consistent_setup.
Qed.

(* ===================================================================== *)
(** ** Flags, errors and requests *)
(* ===================================================================== *)

(** X3.  In a reachable state the loading flag is on only while a
    page-level fetch is outstanding: some parked [fetchImages] call waits for
    a request that was sent, with [per_page=50] and a non-empty query. *)
Theorem loading_only_while_fetch_outstanding (s : State) :
  reachable s → loading s = true →
  ∃ tid req,
    tasks s !! tid = Some (PageFetch req) ∧ req ∈ requests s
    ∧ req_per_page req = perPage ∧ truthy (req_query req) = true.
Proof.
  intros Hs%reachable_consistent Hl.
  destruct (loading_has_fetch s Hs Hl) as (tid & req & Ht).
  exists tid, req. split; [done | ].
  exact (parked_logged s Hs tid _ Ht).
Qed.

Lemma loading_only_while_fetch_outstanding_witness :
  let s := run (mount Sample.cat 1) [PropsChanged Sample.dog 2] in
  loading s = true
  ∧ ∃ tid req,
      tasks s !! tid = Some (PageFetch req) ∧ req ∈ requests s
      ∧ req_per_page req = perPage ∧ truthy (req_query req) = true.
Proof.
  intros s. split; [reflexivity | ].
  apply (loading_only_while_fetch_outstanding s); [ | reflexivity].
  by exists Sample.cat, 1, [PropsChanged Sample.dog 2].
Defined.

(** X4.  In a reachable state the error message is never the empty string,
    so an error that is set is on display: the error view shows exactly when
    [error.value] is not null. *)
Theorem error_always_displayed (s : State) :
  reachable s →
  (∀ m, error s = Some m → m ≠ [])
  ∧ (error s ≠ None ↔ view s = ShowError).
Proof.
  intros Hs%reachable_consistent. pose proof (error_truthy s Hs) as Herr.
  split.
  - intros m Hm%Herr ->. done.
  - unfold view. destruct (error s) as [m | ] eqn:He; simpl.
    + rewrite (Herr m eq_refl). done.
    + split; [done | ]. destruct (loading s); [done | ].
      destruct (_ && _); [done | ]. by case_bool_decide.
Qed.

Lemma error_always_displayed_witness :
  let s := run (mount Sample.cat 1)
             [FetchSettled 0 (Response 404 (Throw []))] in
  error s = Some (lit "HTTP 404") ∧ view s = ShowError.
Proof.
  intros s. split; [reflexivity | ].
  apply (error_always_displayed s); [ | done].
  by exists Sample.cat, 1, [FetchSettled 0 (Response 404 (Throw []))].
Defined.

(** X5.  Every request a reachable state has sent is a page request
    ([per_page=50]) with a non-empty query, or a replacement request
    ([per_page=1]); and every parked fetch waits for a request that was
    sent, of its kind, a replacement for the page it captured. *)
Theorem requests_are_page_or_replacement (s : State) :
  reachable s →
  (∀ r, r ∈ requests s →
     (req_per_page r = 50 ∧ req_query r ≠ []) ∨ req_per_page r = 1)
  ∧ (∀ tid req, tasks s !! tid = Some (PageFetch req) →
       req ∈ requests s ∧ req_per_page req = 50)
  ∧ (∀ tid i fetchPage req,
       tasks s !! tid = Some (ReplacementFetch i fetchPage req) →
       req ∈ requests s ∧ req_per_page req = 1 ∧ req_page req = fetchPage).
Proof.
  intros Hs%reachable_consistent. split_and!.
  - intros r Hr. pose proof (requests_shape s Hs) as Hall.
    rewrite Forall_forall in Hall. destruct (Hall r Hr) as [[? Hq] | ?];
      [left | by right].
    split; [done | ]. intros Hnil. by rewrite Hnil in Hq.
  - intros tid req Ht. by destruct (parked_logged s Hs tid _ Ht) as (? & ? & _).
  - intros tid i fp req Ht.
    by destruct (parked_logged s Hs tid _ Ht) as (? & ? & ?).
Qed.

Lemma requests_are_page_or_replacement_witness :
  let s := run (mount Sample.cat 1)
             [FetchSettled 0 (Sample.found [Sample.hit "a"] 1);
              DblClick 0; TimerFired 1] in
  requests s = [mkReq Sample.cat 1 50; mkReq Sample.cat 2 1]
  ∧ ∀ r, r ∈ requests s →
      (req_per_page r = 50 ∧ req_query r ≠ []) ∨ req_per_page r = 1.
Proof.
  intros s. split; [reflexivity | ].
  apply (requests_are_page_or_replacement s).
  by eexists Sample.cat, 1, _.
Defined.

Lemma total_fetchImages (s : State) : total (fetchImages s) = total s.
Proof. unfold fetchImages. by destruct (truthy (searchQuery s)). Qed.

Lemma total_update_props (q : jsstring) (p : Z) (s : State) :
  total (update_props q p s) = total s.
Proof.
  unfold update_props. case_bool_decide; [done | ]. by rewrite total_fetchImages.
Qed.

Lemma total_step_nonneg (s : State) (e : Event) :
  0 ≤ total s → total_nonneg e → 0 ≤ total (step s e).
Proof.
  intros Hs He. destruct e as [q p | | | idx | tid | tid o]; simpl.
  - by rewrite total_update_props.
  - destruct (view s); try done. destruct (next_disabled s); [done | ].
    destruct (nextPage s); simpl; [by rewrite total_update_props | done].
  - destruct (view s); try done. destruct (prev_disabled s); [done | ].
    destruct (prevPage s); simpl; [by rewrite total_update_props | done].
  - destruct (view s); try done.
    destruct (images s !! idx) as [[it | ] | ]; try done.
    unfold removeImageAt. by destruct (_ || _).
  - destruct (tasks s !! tid) as [[req | i | i fp req] | ]; try done.
    destruct (removeImageAt_settled_fields tid i s) as (_ & -> & _).
    destruct (0 <? total s) eqn:E; lia.
  - destruct (tasks s !! tid) as [[req | i | i fp req] | ]; try done.
    + unfold fetchImages_resume.
      destruct (fetchImages_try o) as [data | m] eqn:Htry; simpl; [ | done].
      apply try_succeeds in Htry as (status & -> & _). exact He.
    + by destruct (resume_frame i fp o (finish tid s)) as [_ ->].
Qed.

(** X6.  As long as the totals the backend reports are not negative, the
    displayed total is not negative after any sequence of events, however
    many images are removed. *)
Theorem total_never_negative (q : jsstring) (p : Z) (evs : list Event) :
  Forall total_nonneg evs → 0 ≤ total (run (mount q p) evs).
Proof.
  assert (H0 : 0 ≤ total (mount q p)).
  { unfold mount. by rewrite total_fetchImages. }
  revert H0. generalize (mount q p).
  induction evs as [ | e evs IH]; intros s Hs Hall; [done | ].
  apply Forall_cons in Hall as [He Hall]. simpl.
  apply IH; [by apply total_step_nonneg | done].
Qed.

Lemma total_never_negative_witness :
  let evs := [FetchSettled 0 (Sample.found [Sample.hit "a"; Sample.hit "b"] 1);
              DblClick 0; DblClick 1; TimerFired 1; TimerFired 2] in
  Forall total_nonneg evs
  ∧ total (run (mount Sample.cat 1) evs) = 0
  ∧ 0 ≤ total (run (mount Sample.cat 1) evs).
Proof.
  intros evs.
  assert (Hall : Forall total_nonneg evs) by (repeat constructor; done).
  split_and!; [exact Hall | reflexivity | ].
  exact (total_never_negative Sample.cat 1 evs Hall).
Defined.

(* ===================================================================== *)
(** ** The life of the error *)
(* ===================================================================== *)

Lemma error_fetchImages (s : State) :
  error (fetchImages s) = error s
  ∨ (error (fetchImages s) = None ∧ truthy (searchQuery s) = true).
Proof. unfold fetchImages. destruct (truthy (searchQuery s)); auto. Qed.

Lemma error_update_props (q : jsstring) (p : Z) (s : State) :
  error (update_props q p s) = error s
  ∨ (error (update_props q p s) = None
     ∧ requests (update_props q p s) = requests s ++ [mkReq q p perPage]).
Proof.
  unfold update_props. case_bool_decide; [by left | ].
  unfold fetchImages. simpl. destruct (truthy q); simpl; auto.
Qed.

Lemma removal_step_frame (s : State) (e : Event) :
  removal_event s e →
  error (step s e) = error s ∧ loading (step s e) = loading s
  ∧ searchQuery (step s e) = searchQuery s ∧ page (step s e) = page s.
Proof.
  destruct e as [q p | | | idx | tid | tid o]; simpl; try done.
  - intros _. destruct (view s); try done.
    destruct (images s !! idx) as [[it | ] | ]; try done.
    unfold removeImageAt. by destruct (_ || _).
  - intros _. destruct (tasks s !! tid) as [[req | i | i fp req] | ]; try done.
    unfold removeImageAt_settled. simpl. by destruct (0 <? total s).
  - intros (i & fp & req & ->). unfold removeImageAt_resume.
    destruct o as [m | status [data | m]]; simpl; try done;
      destruct (ok status); simpl; try done.
    by destruct (first_result data).
Qed.

(** X2.  The life of [error.value], for an event whose page request, if
    it sends one, is for a query that [encodeURIComponent] accepts (a query
    without a lone surrogate).  Such an event leaves the error as it is, or
    clears it while sending a page request, or is the settlement of a
    page-level fetch that failed and sets it to a non-empty message.  A
    page-level fetch
    that succeeds does not touch it: the error is cleared when a fetch is
    sent, not when one succeeds.  A response that is not ok gives the message
    "HTTP <status>"; an ok response with a non-empty [error] field gives
    that field. *)
Theorem error_set_only_by_failed_page_fetch (s : State) (e : Event) :
  encodable s e →
  (error (step s e) = error s
   ∨ (error (step s e) = None
      ∧ ∃ q p, requests (step s e) = requests s ++ [mkReq q p perPage])
   ∨ (∃ tid req o m,
        e = FetchSettled tid o ∧ tasks s !! tid = Some (PageFetch req)
        ∧ (∀ data, ¬ succeeds o data)
        ∧ error (step s e) = Some m ∧ m ≠ []))
  ∧ (∀ tid req o data,
       e = FetchSettled tid o → tasks s !! tid = Some (PageFetch req) →
       succeeds o data → error (step s e) = error s)
  ∧ (∀ tid req status json,
       e = FetchSettled tid (Response status json) →
       tasks s !! tid = Some (PageFetch req) → ok status = false →
       error (step s e) = Some (lit "HTTP " ++ dec status))
  ∧ (∀ tid req status data c msg,
       e = FetchSettled tid (Response status (Normal data)) →
       tasks s !! tid = Some (PageFetch req) → ok status = true →
       d_error data = Some (c :: msg) →
       error (step s e) = Some (c :: msg)).
Proof.
  intros _. split_and!.
  - destruct e as [q p | | | idx | tid | tid o].
    + destruct (error_update_props q p s) as [? | [? ?]]; [by left | ].
      right. left. eauto.
    + simpl. destruct (view s); auto. destruct (next_disabled s); auto.
      destruct (nextPage s) as [p | ]; simpl; auto.
      destruct (error_update_props (searchQuery s) p s) as [? | [? ?]];
        [by left | ].
      right. left. eauto.
    + simpl. destruct (view s); auto. destruct (prev_disabled s); auto.
      destruct (prevPage s) as [p | ]; simpl; auto.
      destruct (error_update_props (searchQuery s) p s) as [? | [? ?]];
        [by left | ].
      right. left. eauto.
    + left. by apply removal_step_frame.
    + left. by apply removal_step_frame.
    + destruct (tasks s !! tid) as [[req | i | i fp req] | ] eqn:Ht.
      * rewrite (step_page_fetch s tid req o Ht). unfold fetchImages_resume.
        destruct (fetchImages_try o) as [data | m] eqn:Htry; [by left | ].
        right. right. exists tid, req, o, (or_else m msg_load_failed).
        split_and!; try done.
        -- apply try_fails. eauto.
        -- intros Hnil. pose proof (or_else_truthy m msg_load_failed eq_refl).
           by rewrite Hnil in H.
      * left. simpl. by rewrite Ht.
      * left. apply removal_step_frame. simpl. eauto.
      * left. simpl. by rewrite Ht.
  - intros tid req o data -> Ht Hs.
    by rewrite (step_page_fetch_succeeds s tid req o data Ht Hs).
  - intros tid req status json -> Ht Hok.
    rewrite (step_page_fetch s tid req _ Ht). unfold fetchImages_resume.
    simpl. rewrite Hok. simpl. done.
  - intros tid req status data c msg -> Ht Hok He.
    rewrite (step_page_fetch s tid req _ Ht). unfold fetchImages_resume.
    simpl. rewrite Hok, He. simpl. done.
Qed.

(** The first fetch of "cat" is answered with status 503, which sets the
    error; a change of the query to "dog", which encodes, clears it and
    sends the request for "dog". *)
Lemma error_set_only_by_failed_page_fetch_witness :
  let s0 := mount Sample.cat 1 in
  let e0 := FetchSettled 0 (Response 503 (Throw [])) in
  let s := step s0 e0 in
  let e := PropsChanged Sample.dog 1 in
  (encodable s0 e0 ∧ encodable s e)
  ∧ tasks s0 !! 0%nat = Some (PageFetch (mkReq Sample.cat 1 50))
  ∧ error s0 = None
  ∧ error s = Some (lit "HTTP 503")
  ∧ error (step s e) = None
  ∧ requests (step s e) = requests s ++ [mkReq Sample.dog 1 50].
Proof.
  intros s0 e0 s e.
  assert (He0 : encodable s0 e0) by exact I.
  assert (He : encodable s e) by reflexivity.
  destruct (error_set_only_by_failed_page_fetch s0 e0 He0)
    as (_ & _ & Hhttp & _).
  destruct (error_set_only_by_failed_page_fetch s e He) as (Hcases & _).
  split_and!; [exact He0 | exact He | reflexivity | reflexivity | | | ].
  - apply (Hhttp 0%nat (mkReq Sample.cat 1 50) 503 (Throw []));
      reflexivity.
  - destruct Hcases as [Hsame | [[Hnone _] | (tid & req & o & m & Hset & _)]];
      [ | exact Hnone | discriminate Hset].
    reflexivity.
  - reflexivity.
Defined.

Lemma view_error_iff (s : State) :
  view s = ShowError ↔ from_option truthy false (error s) = true.
Proof.
  unfold view. destruct (from_option truthy false (error s)); [done | ].
  split; [ | done]. destruct (loading s); [done | ].
  destruct (_ && _); [done | ]. by case_bool_decide.
Qed.

(** X7.  No stage of a removal, whatever its replacement fetch does, touches
    the error, the loading flag or the props: a failed replacement is
    swallowed, and the error view shows after it exactly if it showed
    before. *)
Theorem removal_never_raises_error (s : State) (e : Event) :
  removal_event s e →
  error (step s e) = error s ∧ loading (step s e) = loading s
  ∧ searchQuery (step s e) = searchQuery s ∧ page (step s e) = page s
  ∧ (view (step s e) = ShowError ↔ view s = ShowError).
Proof.
  intros He. destruct (removal_step_frame s e He) as (Herr & Hl & Hq & Hp).
  split_and!; try done. by rewrite !view_error_iff, Herr.
Qed.

Lemma removal_never_raises_error_witness :
  let s := run (mount Sample.cat 1)
             [FetchSettled 0 (Sample.found [Sample.hit "a"] 1);
              DblClick 0; TimerFired 1] in
  let e := FetchSettled 1 (NetworkError (lit "Failed to fetch")) in
  removal_event s e
  ∧ images (step s e) = [] ∧ error (step s e) = None
  ∧ view (step s e) = ShowNothingFound.
Proof.
  intros s e.
  assert (He : removal_event s e) by (by exists 0, 2, (mkReq Sample.cat 2 1)).
  destruct (removal_never_raises_error s e He) as (Herr & _).
  split_and!; [exact He | reflexivity | exact Herr | reflexivity].
Defined.

(* ===================================================================== *)
(** ** The first load and the controls *)
(* ===================================================================== *)

(** A string that is one surrogate is not well formed; a pair is. *)
Lemma well_formed_lone_surrogate (c : N) :
  is_high_surrogate c || is_low_surrogate c = true → well_formed [c] = false.
Proof.
  simpl. destruct (is_high_surrogate c); [done | ].
  simpl. by intros ->.
Qed.

Lemma well_formed_pair (c d : N) (r : jsstring) :
  is_high_surrogate c = true → is_low_surrogate d = true →
  well_formed (c :: d :: r) = well_formed r.
Proof. intros Hc Hd. simpl. by rewrite Hc, Hd. Qed.

(** X1.  The first load.  Mounted on a non-empty query that
    [encodeURIComponent] accepts (a query without a lone surrogate) the
    component shows the loading view and has sent exactly one request, for
    the props, with
    [per_page=50].  When that fetch settles nothing is parked, the loading
    flag is off and no other request was made; if it succeeded the images
    are its results, there is no error, and the view is the grid, or
    "nothing found" when the results are empty; if it failed the images are
    empty and the view is the error. *)
Theorem first_load_ends_in_one_view (q : jsstring) (p : Z) (o : FetchOutcome) :
  q ≠ [] → well_formed q = true →
  let s0 := mount q p in
  let s := step s0 (FetchSettled 0 o) in
  (view s0 = ShowLoading ∧ requests s0 = [mkReq q p 50])
  ∧ (loading s = false ∧ tasks s = ∅ ∧ requests s = [mkReq q p 50])
  ∧ (∀ data, succeeds o data →
       images s = Item <$> default [] (d_results data) ∧ error s = None
       ∧ view s = (if decide (default [] (d_results data) = [])
                   then ShowNothingFound else ShowGrid))
  ∧ ((∀ data, ¬ succeeds o data) → images s = [] ∧ view s = ShowError).
Proof.
  intros Hq _ s0 s.
  assert (Ht : truthy q = true) by (by destruct q).
  assert (Hs0 : s0 = park (PageFetch (mkReq q p perPage))
                  (send (mkReq q p perPage)
                     (set_error None (set_loading true (setup q p))))).
  { unfold s0, mount, fetchImages. simpl. by rewrite Ht. }
  assert (Htask : tasks s0 !! 0%nat = Some (PageFetch (mkReq q p perPage)))
    by (by rewrite Hs0).
  split_and!.
  - by rewrite Hs0.
  - by rewrite Hs0.
  - unfold s. rewrite (step_page_fetch s0 0%nat _ o Htask).
    unfold fetchImages_resume. by destruct (fetchImages_try o).
  - unfold s. rewrite (step_page_fetch s0 0%nat _ o Htask).
    unfold fetchImages_resume. rewrite Hs0.
    destruct (fetchImages_try o); simpl;
      by rewrite delete_insert_eq, delete_empty.
  - unfold s. rewrite (step_page_fetch s0 0%nat _ o Htask).
    unfold fetchImages_resume. rewrite Hs0. by destruct (fetchImages_try o).
  - intros data Hd. unfold s.
    rewrite (step_page_fetch_succeeds s0 0%nat _ o data Htask Hd).
    rewrite Hs0. split_and!; [done | done | ].
    unfold view. simpl. rewrite Ht.
    destruct (default [] (d_results data)) as [ | it rest]; by simpl.
  - intros Hno. apply try_fails in Hno as [m Hm]. unfold s.
    rewrite (step_page_fetch s0 0%nat _ o Htask).
    unfold fetchImages_resume. rewrite Hm. split; [done | ].
    apply view_error_iff. simpl. by apply or_else_truthy.
Qed.

Lemma first_load_ends_in_one_view_witness :
  let s := step (mount Sample.cat 1) (FetchSettled 0 (Sample.found [] 0)) in
  (Sample.cat ≠ [] ∧ well_formed Sample.cat = true)
  ∧ images s = [] ∧ error s = None
  ∧ view s = ShowNothingFound.
Proof.
  intros s. assert (Hq : Sample.cat ≠ []) by done.
  assert (Hw : well_formed Sample.cat = true) by reflexivity.
  destruct (first_load_ends_in_one_view Sample.cat 1 (Sample.found [] 0)
              Hq Hw)
    as (_ & _ & Hok & _).
  destruct (Hok (mkData (Some []) (Some 0) None)) as (Hi & He & Hv).
  { exists 200. split_and!; [reflexivity | reflexivity | by left]. }
  split_and!; [exact Hq | exact Hw | exact Hi | exact He | exact Hv].
Defined.

(** X10.  The buttons and the double-click handler exist in the grid view
    only: while a page is loading, while an error is shown, or when there is
    no image, the view is not the grid and a click on either navigation
    button or a double click on any cell changes nothing. *)
Theorem controls_inert_outside_grid (s : State) :
  (loading s = true ∨ (∃ m, error s = Some m ∧ m ≠ []) ∨ images s = []) →
  view s ≠ ShowGrid
  ∧ step s ClickNext = s ∧ step s ClickPrev = s
  ∧ ∀ idx, step s (DblClick idx) = s.
Proof.
  intros H. assert (Hv : view s ≠ ShowGrid).
  { unfold view. destruct H as [Hl | [(m & He & Hm) | Hi]].
    - rewrite Hl. by destruct (from_option truthy false (error s)).
    - rewrite He. simpl. by destruct m.
    - rewrite Hi. simpl. destruct (from_option truthy false (error s)); [done | ].
      destruct (loading s); [done | ]. by destruct (truthy (searchQuery s)). }
  split; [done | ]. simpl. by destruct (view s).
Qed.

Lemma controls_inert_outside_grid_witness :
  let s := run (mount Sample.cat 1)
             [FetchSettled 0 (Sample.found Sample.full_page 1000);
              ClickNext] in
  page s = 2 ∧ loading s = true ∧ length (images s) = 50%nat
  ∧ step s ClickNext = s ∧ step s (DblClick 0) = s.
Proof.
  intros s.
  destruct (controls_inert_outside_grid s) as (_ & Hn & _ & Hd);
    [by left | ].
  split_and!; [reflexivity | reflexivity | reflexivity | exact Hn | exact (Hd 0%nat)].
Defined.


(* ===================================================================== *)
(** ** Removals out of step *)
(* ===================================================================== *)




Lemma timer_in_range (s : State) (tid : nat) (i : Z) :
  tasks s !! tid = Some (RemovalDelay i) →
  0 ≤ i < Z.of_nat (length (images s)) →
  let s' := step s (TimerFired tid) in
  images s' = <[Z.to_nat i := Placeholder]> (images s)
  ∧ nextFetchPage s' = nextFetchPage s
  ∧ searchQuery s' = searchQuery s
  ∧ requests s'
    = requests s ++ [mkReq (searchQuery s) (nextFetchPage s) 1]
  ∧ tasks s'
    = <[tid := ReplacementFetch i (nextFetchPage s)
                 (mkReq (searchQuery s) (nextFetchPage s) 1)]> (tasks s).
Proof.
  intros Ht Hi s'.
  assert (Hs' : s' = removeImageAt_settled tid i s)
    by (unfold s'; simpl; by rewrite Ht).
  destruct (removeImageAt_settled_fields tid i s) as (Himg & _ & Hreq & Htk & _).
  rewrite <- Hs' in Himg, Hreq, Htk. rewrite splice_replace in Himg by done.
  split_and!; try done.
  - by rewrite Hs', nextFetchPage_settled.
  - rewrite Hs'. unfold removeImageAt_settled. simpl.
    by destruct (0 <? total s).
Qed.

Lemma settle_delivers (s : State) (tid : nat) (i fp : Z) (req : Request)
    (o : FetchOutcome) (item : ResultItem) :
  tasks s !! tid = Some (ReplacementFetch i fp req) →
  0 ≤ i < Z.of_nat (length (images s)) → delivers o item →
  let s' := step s (FetchSettled tid o) in
  images s' = <[Z.to_nat i := Item item]> (images s)
  ∧ nextFetchPage s' = fp + 1
  ∧ tasks s' = delete tid (tasks s).
Proof.
  intros Ht Hi Hd s'. unfold s'.
  rewrite (step_replacement_fetch s tid i fp req o Ht).
  destruct (resume_delivers i fp o item (finish tid s) Hd) as [-> ->].
  split_and!; [by apply splice_replace | done | ].
  destruct Hd as (status & data & rest & -> & Hok & Hres).
  unfold removeImageAt_resume, first_result. by rewrite Hok, Hres.
Qed.

(** X9.  Two removals at distinct valid indices, started back to back, whose
    replacements both deliver.  Both replacements are requested from the same
    overflow page.  In either order of settlement each item ends in the slot
    of its own removal and the rest of the grid is untouched; and the cursor
    ends one past where it was, not two. *)
Theorem overlapping_removals_that_both_deliver
    (s : State) (i j : Z) (oi oj : FetchOutcome) (x y : ResultItem) :
  0 ≤ i < Z.of_nat (length (images s)) →
  0 ≤ j < Z.of_nat (length (images s)) →
  i ≠ j → delivers oi x → delivers oj y →
  let ti := next_task s in
  let tj := S (next_task s) in
  let s' := run (removeImageAt j (removeImageAt i s))
                [TimerFired ti; TimerFired tj] in
  let first_i := run s' [FetchSettled ti oi; FetchSettled tj oj] in
  let first_j := run s' [FetchSettled tj oj; FetchSettled ti oi] in
  let grid :=
    <[Z.to_nat j := Item y]> (<[Z.to_nat i := Item x]> (images s)) in
  requests s'
  = requests s ++ [mkReq (searchQuery s) (nextFetchPage s) 1;
                   mkReq (searchQuery s) (nextFetchPage s) 1]
  ∧ images first_i = grid ∧ images first_j = grid
  ∧ nextFetchPage first_i = nextFetchPage s + 1
  ∧ nextFetchPage first_j = nextFetchPage s + 1.
Proof.
  intros Hi Hj Hne Hx Hy ti tj s' first_i first_j grid.
  set (a1 := removeImageAt i s). set (a2 := removeImageAt j a1).
  assert (Ha1 : a1 = park (RemovalDelay i)
                  (set_removingIndexes ({[i]} ∪ removingIndexes s) s))
    by (by apply removeImageAt_in_range).
  assert (Ha2 : a2 = park (RemovalDelay j)
                  (set_removingIndexes ({[j]} ∪ removingIndexes a1) a1)).
  { apply removeImageAt_in_range. by rewrite Ha1. }
  assert (Hij : ti ≠ tj) by (unfold ti, tj; lia).
  set (b1 := step a2 (TimerFired ti)).
  destruct (timer_in_range a2 ti i) as (Hb1i & Hb1c & Hb1q & Hb1r & Hb1t).
  { rewrite Ha2, Ha1. simpl. rewrite lookup_insert_ne by lia.
    apply lookup_insert_eq. }
  { by rewrite Ha2, Ha1. }
  fold b1 in Hb1i, Hb1c, Hb1q, Hb1r, Hb1t.
  set (b2 := step b1 (TimerFired tj)).
  destruct (timer_in_range b1 tj j) as (Hb2i & Hb2c & Hb2q & Hb2r & Hb2t).
  { rewrite Hb1t, lookup_insert_ne by done. rewrite Ha2, Ha1. simpl.
    apply lookup_insert_eq. }
  { rewrite Hb1i, length_insert. by rewrite Ha2, Ha1. }
  fold b2 in Hb2i, Hb2c, Hb2q, Hb2r, Hb2t.
  assert (Hs' : s' = b2) by reflexivity.
  assert (Himg : images a2 = images s) by (by rewrite Ha2, Ha1).
  assert (Hcur : nextFetchPage a2 = nextFetchPage s) by (by rewrite Ha2, Ha1).
  assert (Hqry : searchQuery a2 = searchQuery s) by (by rewrite Ha2, Ha1).
  assert (Hreq : requests a2 = requests s) by (by rewrite Ha2, Ha1).
  rewrite Hb1i, Himg in Hb2i. rewrite Hb1c, Hcur in Hb2c.
  rewrite Hb1q, Hqry, Hb1c, Hcur, Hb1t, Hqry, Hcur in Hb2t.
  assert (Hlen : length (images b2) = length (images s))
    by (by rewrite Hb2i, !length_insert).
  assert (Hti : tasks b2 !! ti
                = Some (ReplacementFetch i (nextFetchPage s)
                          (mkReq (searchQuery s) (nextFetchPage s) 1))).
  { rewrite Hb2t, lookup_insert_ne by done. apply lookup_insert_eq. }
  assert (Htj : tasks b2 !! tj
                = Some (ReplacementFetch j (nextFetchPage s)
                          (mkReq (searchQuery s) (nextFetchPage s) 1))).
  { rewrite Hb2t. apply lookup_insert_eq. }
  assert (Hnat : Z.to_nat i ≠ Z.to_nat j) by lia.
  split_and!.
  - rewrite Hs', Hb2r, Hb1q, Hb1c, Hb1r, Hqry, Hcur, Hreq.
    by rewrite <- app_assoc.
  - unfold first_i. rewrite Hs'. unfold run. cbn [foldl].
    destruct (settle_delivers b2 ti i _ _ oi x Hti) as (H1i & H1c & H1t);
      [lia | done | ].
    destruct (settle_delivers (step b2 (FetchSettled ti oi)) tj j
                (nextFetchPage s)
                (mkReq (searchQuery s) (nextFetchPage s) 1) oj y)
      as (H2i & _); [ | | done | ].
    { by rewrite H1t, lookup_delete_ne. }
    { rewrite H1i, length_insert. lia. }
    rewrite H2i, H1i, Hb2i. unfold grid.
    rewrite (list_insert_insert_ne _ (Z.to_nat i) (Z.to_nat j)) by done.
    by rewrite !list_insert_insert_eq.
  - unfold first_j. rewrite Hs'. unfold run. cbn [foldl].
    destruct (settle_delivers b2 tj j _ _ oj y Htj) as (H1i & H1c & H1t);
      [lia | done | ].
    destruct (settle_delivers (step b2 (FetchSettled tj oj)) ti i
                (nextFetchPage s)
                (mkReq (searchQuery s) (nextFetchPage s) 1) oi x)
      as (H2i & _); [ | | done | ].
    { by rewrite H1t, lookup_delete_ne. }
    { rewrite H1i, length_insert. lia. }
    rewrite H2i, H1i, Hb2i. unfold grid.
    rewrite list_insert_insert_eq.
    rewrite (list_insert_insert_ne _ (Z.to_nat i) (Z.to_nat j)) by done.
    by rewrite list_insert_insert_eq.
  - unfold first_i. rewrite Hs'. unfold run. cbn [foldl].
    destruct (settle_delivers b2 ti i _ _ oi x Hti) as (H1i & H1c & H1t);
      [lia | done | ].
    destruct (settle_delivers (step b2 (FetchSettled ti oi)) tj j
                (nextFetchPage s)
                (mkReq (searchQuery s) (nextFetchPage s) 1) oj y)
      as (_ & H2c & _); [ | | done | done].
    { by rewrite H1t, lookup_delete_ne. }
    { rewrite H1i, length_insert. lia. }
  - unfold first_j. rewrite Hs'. unfold run. cbn [foldl].
    destruct (settle_delivers b2 tj j _ _ oj y Htj) as (H1i & H1c & H1t);
      [lia | done | ].
    destruct (settle_delivers (step b2 (FetchSettled tj oj)) ti i
                (nextFetchPage s)
                (mkReq (searchQuery s) (nextFetchPage s) 1) oi x)
      as (_ & H2c & _); [ | | done | done].
    { by rewrite H1t, lookup_delete_ne. }
    { rewrite H1i, length_insert. lia. }
Qed.

(* ===================================================================== *)
(** ** The names again *)
(* ===================================================================== *)

Lemma replace_spaces_from_no_space (b : bool) (s : jsstring) :
  Forall (λ c, is_space c = false) (replace_spaces_from b s).
Proof.
  revert b. induction s as [ | c r IH]; intros b; simpl; [constructor | ].
  destruct (is_space c) eqn:Hc.
  - destruct b; [apply IH | constructor; [done | apply IH]].
  - constructor; [done | apply IH].
Qed.

Lemma replace_spaces_from_id (b : bool) (s : jsstring) :
  Forall (λ c, is_space c = false) s → replace_spaces_from b s = s.
Proof.
  revert b. induction s as [ | c r IH]; intros b Hs; [done | ].
  apply Forall_cons in Hs as [Hc Hr]. simpl. rewrite Hc. f_equal.
  by apply IH.
Qed.

Lemma replace_spaces_from_length (b : bool) (s : jsstring) :
  (length (replace_spaces_from b s) ≤ length s)%nat.
Proof.
  revert b. induction s as [ | c r IH]; intros b; simpl; [done | ].
  destruct (is_space c); [destruct b | ]; simpl;
    [specialize (IH true) | specialize (IH true) | specialize (IH false)]; lia.
Qed.

(** The characters of a numeral are digits or the minus sign. *)
Lemma uint_chars (d : Decimal.uint) :
  Forall (λ c, (48 ≤ c ≤ 57)%N) (lit (NilEmpty.string_of_uint d)).
Proof.
  unfold lit. induction d; simpl; constructor; try done; lia.
Qed.

Lemma dec_chars (z : Z) :
  Forall (λ c, (48 ≤ c ≤ 57)%N ∨ c = 45%N) (dec z).
Proof.
  assert (Hu : ∀ d, Forall (λ c, (48 ≤ c ≤ 57)%N ∨ c = 45%N)
                      (lit (NilZero.string_of_uint d))).
  { intros d. eapply Forall_impl; [ | intros c Hc; left; exact Hc].
    destruct d; try apply uint_chars.
    unfold lit. simpl. constructor; [lia | constructor]. }
  unfold dec. destruct (Z.to_int z) as [d | d]; simpl; [apply Hu | ].
  change (lit (String "-" (NilZero.string_of_uint d)))
    with (45%N :: lit (NilZero.string_of_uint d)).
  constructor; [by right | apply Hu].
Qed.

(** X11.  [replace(/\s+/g, '_')] leaves no whitespace, is idempotent, leaves
    a query without whitespace as it is and never lengthens one; so the name
    of the saved file has no whitespace in it. *)
Theorem folder_name_has_no_whitespace (q : jsstring) (p : Z) :
  Forall (λ c, is_space c = false) (replace_spaces q)
  ∧ replace_spaces (replace_spaces q) = replace_spaces q
  ∧ (Forall (λ c, is_space c = false) q → replace_spaces q = q)
  ∧ (length (replace_spaces q) ≤ length q)%nat
  ∧ Forall (λ c, is_space c = false) (folderName_of q p ++ lit ".zip").
Proof.
  assert (H1 : Forall (λ c, is_space c = false) (replace_spaces q))
    by apply replace_spaces_from_no_space.
  split_and!.
  - done.
  - by apply replace_spaces_from_id.
  - apply replace_spaces_from_id.
  - apply replace_spaces_from_length.
  - unfold folderName_of. rewrite !Forall_app. split_and!; try done.
    + unfold lit. simpl. repeat constructor.
    + unfold lit. simpl. repeat constructor.
    + eapply Forall_impl; [apply dec_chars | ].
      intros c [Hc | ->]; [ | done]. unfold is_space.
      rewrite (proj2 (N.leb_gt c 0x0D)), (proj2 (N.leb_gt 0x2000 c)) by lia.
      repeat match goal with
             | |- context [(c =? ?k)%N] =>
                 rewrite (proj2 (N.eqb_neq c k)) by lia
             end.
      by rewrite andb_false_r.
    + unfold lit. simpl. repeat constructor.
Qed.

Lemma split_pieces (sep : N) (s : jsstring) :
  Forall (λ piece, sep ∉ piece) (split sep s).
Proof.
  induction s as [ | c r IH]; simpl.
  - constructor; [apply not_elem_of_nil | constructor].
  - destruct (N.eqb c sep) eqn:E.
    + constructor; [apply not_elem_of_nil | done].
    + apply N.eqb_neq in E. destruct (split sep r) as [ | h t].
      * constructor; [ | constructor]. apply not_elem_of_cons.
        split; [done | apply not_elem_of_nil].
      * apply Forall_cons in IH as [Hh Ht]. constructor; [ | done].
        apply not_elem_of_cons. split; done.
Qed.

(** X12.  The extension of an entry is never empty and never contains a
    slash; it is [jpg] or the second of the pieces the media type splits
    into at its slashes. *)
Theorem extension_is_a_plain_name (mime : option jsstring) :
  ext_of mime ≠ [] ∧ (slash ∉ ext_of mime)
  ∧ (ext_of mime = lit "jpg"
     ∨ ∃ m, mime = Some m ∧ split slash m !! 1%nat = Some (ext_of mime)).
Proof.
  assert (Hjpg : lit "jpg" ≠ [] ∧ slash ∉ lit "jpg").
  { split; [done | ]. unfold lit. simpl.
    rewrite !not_elem_of_cons. split_and!; try done. apply not_elem_of_nil. }
  unfold ext_of. destruct mime as [m | ]; [ | split_and!; [apply Hjpg .. | by left]].
  destruct (truthy m); [ | split_and!; [apply Hjpg .. | by left]].
  destruct (split slash m !! 1%nat) as [e | ] eqn:He;
    [ | split_and!; [apply Hjpg .. | by left]].
  unfold or_else. destruct (truthy e) eqn:Ht;
    [ | split_and!; [apply Hjpg .. | by left]].
  split_and!.
  - by destruct e.
  - pose proof (split_pieces slash m) as Hall. rewrite Forall_forall in Hall.
    apply Hall. by eapply list_elem_of_lookup_2.
  - right. by exists m.
Qed.

(* ===================================================================== *)
(** ** The batches and the earlier revision *)
(* ===================================================================== *)

Lemma batch_loop_slices (loadImage : jsstring → option ImageEl)
    (toBlob : Canvas → jsstring → Q → option Blob)
    (folderName : jsstring) (p : Z)
    (imgs : list Slot) (fuel i : nat) (zip : gmap jsstring Blob) :
  batch_loop loadImage toBlob fuel imgs folderName p i zip
  = (foldl (run_batch loadImage toBlob folderName p) (zip, i)
           (batch_slices fuel imgs i)).1.
Proof.
  revert i zip. induction fuel as [ | fuel IH]; intros i zip; simpl; [done | ].
  case_bool_decide; [ | done]. simpl. by rewrite IH.
Qed.

Lemma ceil_div_step (n i : nat) :
  (i < n)%nat →
  (S ((n - (i + 6) + 5) / 6) = (n - i + 5) / 6)%nat.
Proof.
  intros Hi. destruct (le_lt_dec (i + 6) n).
  - replace (n - i + 5)%nat with ((n - (i + 6) + 5) + 1 * 6)%nat by lia.
    rewrite Nat.div_add by lia. lia.
  - replace (n - (i + 6))%nat with 0%nat by lia.
    change (S ((0 + 5) / 6))%nat with 1%nat.
    apply (Nat.div_unique _ _ _ (n - i - 1)%nat); lia.
Qed.

Lemma batch_slices_spec (imgs : list Slot) (fuel i : nat) :
  (length imgs - i ≤ fuel)%nat →
  concat (batch_slices fuel imgs i) = drop i imgs
  ∧ Forall (λ b, (1 ≤ length b ≤ concurrency)%nat) (batch_slices fuel imgs i)
  ∧ length (batch_slices fuel imgs i)
    = ((length imgs - i + (concurrency - 1)) / concurrency)%nat.
Proof.
  revert i. induction fuel as [ | fuel IH]; intros i Hfuel; simpl.
  - rewrite drop_ge by lia. split_and!; [done | constructor | ].
    replace (length imgs - i)%nat with 0%nat by lia. done.
  - case_bool_decide as Hi.
    + destruct (IH (i + concurrency)%nat) as (Hc & Hb & Hl);
        [unfold concurrency; lia | ].
      rewrite slice_batch by done. split_and!.
      * simpl. rewrite Hc, <- drop_drop. apply take_drop.
      * constructor; [ | done]. rewrite length_take, length_drop.
        unfold concurrency. lia.
      * cbn [length]. rewrite Hl. by apply ceil_div_step.
    + rewrite drop_ge by lia. split_and!; [done | constructor | ].
      replace (length imgs - i)%nat with 0%nat by lia. done.
Qed.

Lemma filter_none {A} (P : A → Prop) `{∀ x, Decision (P x)} (l : list A) :
  (∀ x, x ∈ l → ¬ P x) → filter P l = [].
Proof.
  induction l as [ | x l IH]; intros Hl; [done | ].
  rewrite filter_cons, decide_False by (apply Hl, elem_of_cons; by left).
  apply IH. intros y Hy. apply Hl, elem_of_cons. by right.
Qed.

Lemma filter_all {A} (P : A → Prop) `{∀ x, Decision (P x)} (l : list A) :
  (∀ x, x ∈ l → P x) → filter P l = l.
Proof.
  induction l as [ | x l IH]; intros Hl; [done | ].
  rewrite filter_cons, decide_True by (apply Hl, elem_of_cons; by left).
  f_equal. apply IH. intros y Hy. apply Hl, elem_of_cons. by right.
Qed.

Section Export_more.

Variable loadImage : jsstring → option ImageEl.
Variable toBlob : Canvas → jsstring → Q → option Blob.

(** X13.  The export loop cuts the grid into batches that, glued together,
    are the grid in display order; every batch has between one and six
    images; there are ceil(n / 6) of them; and the loop does to the archive
    what handling these batches one after the other does. *)
Theorem export_runs_in_bounded_batches (imgs : list Slot)
  (folderName : jsstring) (p : Z) (zip : gmap jsstring Blob) :
let batches := batch_slices (length imgs) imgs 0 in
concat batches = imgs
∧ Forall (λ b, (1 ≤ length b ≤ 6)%nat) batches
∧ length batches = ((length imgs + 5) / 6)%nat
∧ batch_loop loadImage toBlob (length imgs) imgs folderName p 0 zip
  = (foldl (run_batch loadImage toBlob folderName p) (zip, 0%nat)
           batches).1.
Proof.
intros batches.
destruct (batch_slices_spec imgs (length imgs) 0) as (Hc & Hb & Hl);
  [lia | ].
split_and!.
- exact Hc.
- exact Hb.
- unfold batches. rewrite Hl, Nat.sub_0_r. done.
- apply batch_loop_slices.
Qed.

(** X14.  On a non-empty grid the export saves an archive with at most as
    many files as the grid has slots: none if no image transcodes (the
    archive is saved all the same), one per slot if every image does.  Of
    the state it changes nothing but the error, which it clears. *)
Theorem archive_no_larger_than_grid (s : State) :
images s ≠ [] →
∃ d, (downloadZip loadImage toBlob s).2 = Some d
  ∧ (size (files d) ≤ length (images s))%nat
  ∧ ((∀ img, img ∈ images s → transcode loadImage toBlob img = None) →
     files d = ∅)
  ∧ ((∀ img, img ∈ images s → is_Some (transcode loadImage toBlob img)) →
     size (files d) = length (images s))
  ∧ (downloadZip loadImage toBlob s).1 = set_error None s.
Proof.
intros Hne. destruct (downloadZip_size loadImage toBlob s Hne)
  as (d & Hd & Hsize).
exists d. split_and!.
- done.
- rewrite Hsize. apply length_filter.
- intros Hall. apply map_size_empty_inv. rewrite Hsize.
  rewrite filter_none; [done | ].
  intros img Hin [b Hb]. rewrite (Hall img Hin) in Hb. done.
- intros Hall. rewrite Hsize. by rewrite filter_all.
- by rewrite downloadZip_nonempty.
Qed.

End Export_more.

Lemma archive_no_larger_than_grid_witness :
  let s := run (mount Sample.cat 1)
             [FetchSettled 0
                (Sample.found [Sample.hit "a"; Sample.hit "b"] 2)] in
  let offline (url : jsstring) : option ImageEl := None in
  images s ≠ []
  ∧ ∃ d, (downloadZip offline Sample.encodes s).2 = Some d
         ∧ download d = lit "images_cat_page1.zip" ∧ files d = ∅.
Proof.
  intros s offline. assert (Hne : images s ≠ []) by done.
  split; [exact Hne | ].
  destruct (archive_no_larger_than_grid offline Sample.encodes s Hne)
    as (d & Hd & _ & Hnone & _).
  exists d. split_and!; [exact Hd | | by apply Hnone].
  assert (Some d = Some (mkDownload (lit "images_cat_page1.zip") ∅)) as [= ->];
    [ | done].
  by rewrite <- Hd.
Defined.

Section Earlier_facts.

Variable fetchUrl : jsstring → BlobOutcome.

Lemma transcode_passes_download (img : Slot) :
transcode loads_as_itself (encodes_download fetchUrl) img
= fetchBlob fetchUrl (url_of img).
Proof. reflexivity. Qed.

Lemma fetch_item_process (i idx : nat) (img : Slot) :
fetch_item fetchUrl i idx img
= process loads_as_itself (encodes_download fetchUrl) i idx img.
Proof. reflexivity. Qed.

Lemma batch_loop_earlier_later (fuel : nat) (imgs : list Slot)
  (folderName : jsstring) (p : Z) (i : nat) (zip : gmap jsstring Blob) :
batch_loop_earlier fetchUrl fuel imgs folderName p i zip
= batch_loop loads_as_itself (encodes_download fetchUrl) fuel imgs
             folderName p i zip.
Proof.
revert i zip. induction fuel as [ | fuel IH]; intros i zip; simpl; [done | ].
case_bool_decide; [ | done]. rewrite IH. do 2 f_equal.
Qed.

(** X15.  The earlier revision of [downloadZip].  On an empty grid it does
    nothing.  Otherwise it saves a file of the same name as the later
    revision, whose entries are exactly these: for each position whose
    image downloads with an ok status, the entry of that position's name
    (1-based index, extension from the media type of the response) holding
    the downloaded blob; there are as many entries as images that download;
    and it leaves the loading flag off and the error cleared. *)
Theorem earlier_revision_zips_the_downloads (s : State) :
(images s = [] → downloadZip_earlier fetchUrl s = (s, None))
∧ (images s ≠ [] →
   ∃ d, (downloadZip_earlier fetchUrl s).2 = Some d
     ∧ download d = folderName_of (searchQuery s) (page s) ++ lit ".zip"
     ∧ (∀ name b,
          files d !! name = Some b ↔
          ∃ idx img,
            images s !! idx = Some img
            ∧ fetchBlob fetchUrl (url_of img) = Some b
            ∧ name = entry_name (folderName_of (searchQuery s) (page s))
                       (page s) idx (ext_of (Some (type b))))
     ∧ size (files d)
       = length (filter (λ img, is_Some (fetchBlob fetchUrl (url_of img)))
                        (images s))
     ∧ (downloadZip_earlier fetchUrl s).1
       = set_loading false (set_error None s)).
Proof.
split.
- intros H. unfold downloadZip_earlier. by rewrite H.
- intros Hne.
  assert (Hd : downloadZip_earlier fetchUrl s
               = (set_loading false (set_error None s),
                  (downloadZip loads_as_itself (encodes_download fetchUrl)
                     s).2)).
  { unfold downloadZip_earlier, downloadZip.
    rewrite !bool_decide_eq_false_2 by (by destruct (images s)).
    simpl. by rewrite batch_loop_earlier_later. }
  rewrite Hd. cbn [fst snd].
  rewrite downloadZip_nonempty by done. cbn [snd].
  eexists. split; [reflexivity | ]. cbn [download files].
  split_and!.
  + done.
  + intros name b. rewrite foldl_write_lookup.
    * rewrite lookup_empty, entries_from_index. cbn [Nat.add]. split.
      -- intros [H | ?]; [ | done]. exact H.
      -- intros H. by left.
    * apply entries_from_NoDup.
    * intros e _. apply lookup_empty.
  + rewrite foldl_write_size.
    * by rewrite map_size_empty, entries_from_length.
    * apply entries_from_NoDup.
    * intros e _. apply lookup_empty.
  + done.
Qed.

End Earlier_facts.

(* ===================================================================== *)
(** ** Worked examples *)
(* ===================================================================== *)

Lemma overlapping_removals_that_both_deliver_witness :
  let s := run (mount Sample.cat 1)
             [FetchSettled 0
                (Sample.found [Sample.hit "a"; Sample.hit "b";
                               Sample.hit "c"; Sample.hit "d"] 4)] in
  let ox := Sample.found [Sample.hit "x"] 1 in
  let oy := Sample.found [Sample.hit "y"] 1 in
  let s' := run (removeImageAt 2 (removeImageAt 0 s))
                [TimerFired 1; TimerFired 2] in
  let grid := [Item (Sample.hit "x"); Item (Sample.hit "b");
               Item (Sample.hit "y"); Item (Sample.hit "d")] in
  nextFetchPage s = 2
  ∧ images (run s' [FetchSettled 1 ox; FetchSettled 2 oy]) = grid
  ∧ images (run s' [FetchSettled 2 oy; FetchSettled 1 ox]) = grid
  ∧ nextFetchPage (run s' [FetchSettled 2 oy; FetchSettled 1 ox]) = 2 + 1.
Proof.
  intros s ox oy s' grid.
  assert (Hx : delivers ox (Sample.hit "x")).
  { exists 200, (mkData (Some [Sample.hit "x"]) (Some 1) None), [].
    split_and!; reflexivity. }
  assert (Hy : delivers oy (Sample.hit "y")).
  { exists 200, (mkData (Some [Sample.hit "y"]) (Some 1) None), [].
    split_and!; reflexivity. }
  destruct (overlapping_removals_that_both_deliver s 0 2 ox oy
              (Sample.hit "x") (Sample.hit "y"))
    as (_ & H1 & H2 & _ & H3); [vm_compute; done | vm_compute; done | done
                                | exact Hx | exact Hy | ].
  split_and!; [reflexivity | exact H1 | exact H2 | exact H3].
Defined.

Lemma folder_name_has_no_whitespace_witness :
  Forall (λ c, is_space c = false) (lit "black_cat")
  ∧ replace_spaces (lit "black_cat") = lit "black_cat"
  ∧ replace_spaces (lit "black   cat") = lit "black_cat".
Proof.
  assert (H : Forall (λ c, is_space c = false) (lit "black_cat"))
    by (unfold lit; simpl; repeat constructor).
  destruct (folder_name_has_no_whitespace (lit "black_cat") 1)
    as (_ & _ & Hid & _).
  split_and!; [exact H | exact (Hid H) | reflexivity].
Defined.

Lemma earlier_revision_zips_the_downloads_witness :
  let s := run (mount Sample.cat 2)
             [FetchSettled 0
                (Sample.found [Sample.hit "a"; Sample.hit "b"] 2)] in
  let server :=
    Sample_earlier.serves_png_but [download_url (Sample.hit "a")] in
  images s ≠ []
  ∧ ∃ d, (downloadZip_earlier server s).2 = Some d
         ∧ download d = lit "images_cat_page2.zip"
         ∧ files d !! lit "images_cat_page2/image_2_2.png"
           = Some (mkBlob (lit "image/png") [])
         ∧ size (files d) = 1%nat.
Proof.
  intros s server. assert (Hne : images s ≠ []) by done.
  split; [exact Hne | ].
  destruct (earlier_revision_zips_the_downloads server s) as [_ H].
  destruct (H Hne) as (d & Hd & Hname & Hfiles & Hsize & _).
  exists d. split_and!; [exact Hd | exact Hname | | exact Hsize].
  apply Hfiles. exists 1%nat, (Item (Sample.hit "b")).
  split_and!; reflexivity.
Defined.
